(** * Business-hours parser and open-now evaluator of [build_geojson.py]

    A shallow embedding of the hours core of [src/build_geojson.py]
    ([_norm], [_to_minutes], [parse_time_ranges], [_split_and_normalize_days],
    [calc_open_now], [build_schedule_fixed]) and the properties its
    specification states about it.

    Modelling conventions.
    - A Python [str] is a [string] holding its UTF-8 bytes.  Every pattern and
      every [replace] argument of the source is a literal, so searching and
      replacing on bytes agrees with searching on code points, and byte order
      is code-point order (used by [sorted]).  Text positions are byte
      offsets; the source only compares positions with each other.
    - [\s], [\d], [str.strip], [str.lower] and the [(?i)] flag are modelled on
      the ASCII range (Python extends them to non-ASCII white space, digits
      and letters).
    - Python integers are [Z].  A Python exception is [None] in the [option]
      monad. *)

From Stdlib Require Import ZArith List Bool Ascii String Lia Arith Sorted Permutation DecimalString.
Import ListNotations.

Open Scope string_scope.

(** ** The option monad (a raised exception is [None]) *)

Definition bind {A B : Type} (x : option A) (f : A -> option B) : option B :=
  match x with
  | Some a => f a
  | None => None
  end.

Notation "x <- e ;; k" := (bind e (fun x => k))
  (at level 61, e at next level, right associativity).

(** ** Python string primitives *)

Module PyStr.

Definition code (c : ascii) : nat := nat_of_ascii c.

Definition in_range (lo hi : nat) (c : ascii) : bool :=
  (lo <=? code c)%nat && (code c <=? hi)%nat.

(** [\d] and [str.isdigit] on ASCII. *)
Definition is_digit (c : ascii) : bool := in_range 48 57 c.

(** [\s] and [str.isspace] on ASCII: TAB..CR, FS..US and the space. *)
Definition is_space (c : ascii) : bool :=
  in_range 9 13 c || in_range 28 32 c.

Definition is_upper (c : ascii) : bool := in_range 65 90 c.
Definition is_lower (c : ascii) : bool := in_range 97 122 c.

(** [[A-Za-z]] *)
Definition is_alpha (c : ascii) : bool := is_upper c || is_lower c.

Definition lower_char (c : ascii) : ascii :=
  if is_upper c then ascii_of_nat (code c + 32) else c.

(** [s.lower()] *)
Fixpoint lower (s : string) : string :=
  match s with
  | EmptyString => EmptyString
  | String c s' => String (lower_char c) (lower s')
  end.

Fixpoint lstrip (s : string) : string :=
  match s with
  | EmptyString => EmptyString
  | String c s' => if is_space c then lstrip s' else s
  end.

(** Strips trailing white space; [EmptyString] when [s] is all white space. *)
Fixpoint rstrip (s : string) : string :=
  match s with
  | EmptyString => EmptyString
  | String c s' =>
      match rstrip s' with
      | EmptyString => if is_space c then EmptyString else String c EmptyString
      | t => String c t
      end
  end.

(** [s.strip()] *)
Definition strip (s : string) : string := rstrip (lstrip s).

(** [s.startswith(p)] *)
Fixpoint startswith (p s : string) : bool :=
  match p, s with
  | EmptyString, _ => true
  | String a p', String b s' => Ascii.eqb a b && startswith p' s'
  | String _ _, EmptyString => false
  end.

(** [p in s] *)
Fixpoint contains (p s : string) : bool :=
  startswith p s ||
  match s with
  | EmptyString => false
  | String _ s' => contains p s'
  end.

(** [s.replace(old, new)] for a non-empty [old]: leftmost occurrences, not
    overlapping.  [skip] counts the bytes of an occurrence still to drop. *)
Fixpoint replace_from (old new s : string) (skip : nat) : string :=
  match s with
  | EmptyString => EmptyString
  | String c s' =>
      match skip with
      | S n => replace_from old new s' n
      | O =>
          if startswith old s
          then new ++ replace_from old new s' (String.length old - 1)
          else String c (replace_from old new s' 0)
      end
  end.

Definition replace (old new s : string) : string := replace_from old new s 0.

(** [s.split(sep)] for a one-character separator; [cur] is the piece being
    read. *)
Fixpoint split_from (sep : ascii) (s : string) (cur : string) : list string :=
  match s with
  | EmptyString => [cur]
  | String c s' =>
      if Ascii.eqb c sep
      then cur :: split_from sep s' EmptyString
      else split_from sep s' (cur ++ String c EmptyString)
  end.

Definition split (sep : ascii) (s : string) : list string :=
  split_from sep s EmptyString.

(** [s[:n]] *)
Definition take (n : nat) (s : string) : string := substring 0 n s.

Definition digit_val (c : ascii) : Z := Z.of_nat (code c - 48).

Fixpoint int_digits (s : string) (acc : Z) : option Z :=
  match s with
  | EmptyString => Some acc
  | String c s' =>
      if is_digit c then int_digits s' (acc * 10 + digit_val c)%Z else None
  end.

(** [int(s)] on a string of decimal digits; [None] is [ValueError].  (Python
    also accepts a sign, padding and underscores, which no text matched by
    [\d{1,2}] has.) *)
Definition int (s : string) : option Z :=
  match s with
  | EmptyString => None
  | _ => int_digits s 0%Z
  end.

(** Python truthiness of a [str]. *)
Definition truthy (s : string) : bool :=
  match s with
  | EmptyString => false
  | _ => true
  end.

End PyStr.

(** ** A backtracking matcher for the fragment of [re] the source uses *)

Module Re.

(** Patterns.  Repetition is only ever applied to a character class in the
    source, so [Rep] carries a class.  All repetitions are greedy, and
    alternatives are tried left to right, as in [re]. *)
Inductive regex : Type :=
| Eps
| Chr (cls : ascii -> bool)
| Rep (cls : ascii -> bool) (lo : nat) (hi : option nat)
| Cat (r1 r2 : regex)
| Alt (r1 r2 : regex)
| Opt (r : regex)
| Grp (g : string) (r : regex).

Definition captures := list (string * string).

Fixpoint lookup (g : string) (caps : captures) : option string :=
  match caps with
  | [] => None
  | (g', v) :: rest => if String.eqb g g' then Some v else lookup g rest
  end.

Definition cont (A : Type) : Type := string -> nat -> captures -> option A.

(** [cls{lo,hi}], greedy: take one more character when allowed, and give it
    back when the rest of the pattern fails. *)
Fixpoint rep {A : Type} (cls : ascii -> bool) (lo : nat) (hi : option nat)
    (s : string) (pos : nat) (caps : captures) (k : cont A) : option A :=
  let stop := match lo with
              | O => k s pos caps
              | S _ => None
              end in
  let more := match hi with
              | Some O => false
              | _ => true
              end in
  match s with
  | EmptyString => stop
  | String c s' =>
      if cls c && more
      then match rep cls (pred lo) (option_map pred hi) s' (S pos) caps k with
           | Some x => Some x
           | None => stop
           end
      else stop
  end.

Fixpoint run {A : Type} (r : regex) (s : string) (pos : nat) (caps : captures)
    (k : cont A) : option A :=
  match r with
  | Eps => k s pos caps
  | Chr cls =>
      match s with
      | String c s' => if cls c then k s' (S pos) caps else None
      | EmptyString => None
      end
  | Rep cls lo hi => rep cls lo hi s pos caps k
  | Cat r1 r2 => run r1 s pos caps (fun s' pos' caps' => run r2 s' pos' caps' k)
  | Alt r1 r2 =>
      match run r1 s pos caps k with
      | Some x => Some x
      | None => run r2 s pos caps k
      end
  | Opt r1 =>
      match run r1 s pos caps k with
      | Some x => Some x
      | None => k s pos caps
      end
  | Grp g r1 =>
      run r1 s pos caps
        (fun s' pos' caps' => k s' pos' ((g, substring 0 (pos' - pos) s) :: caps'))
  end.

(** A match object: [m.start()], [m.end()] and the groups. *)
Record rmatch : Type := mkMatch {
  m_start : nat;
  m_end : nat;
  m_groups : captures
}.

(** [m.group(g)]; [None] when the group took no part in the match. *)
Definition group (g : string) (m : rmatch) : option string :=
  lookup g (m_groups m).

(** The match of [r] that starts at the head of [s], which is at offset
    [pos] of the text. *)
Definition match_at (r : regex) (s : string) (pos : nat) : option rmatch :=
  run r s pos [] (fun _ pos' caps' => Some (mkMatch pos pos' caps')).

(** [re.match(r, s)] *)
Definition match_ (r : regex) (s : string) : option rmatch := match_at r s 0.

(** [r.finditer(text)], scanning left to right; [skip] counts the characters
    of the last match still to pass.  After an empty match the scan moves on
    one character (no pattern of the source matches the empty string). *)
Fixpoint finditer_from (r : regex) (s : string) (pos skip : nat) : list rmatch :=
  match skip with
  | S n =>
      match s with
      | EmptyString => []
      | String _ s' => finditer_from r s' (S pos) n
      end
  | O =>
      match match_at r s pos with
      | Some m =>
          m :: match s with
               | EmptyString => []
               | String _ s' => finditer_from r s' (S pos) (m_end m - pos - 1)
               end
      | None =>
          match s with
          | EmptyString => []
          | String _ s' => finditer_from r s' (S pos) 0
          end
      end
  end.

Definition finditer (r : regex) (s : string) : list rmatch :=
  finditer_from r s 0 0.

(** [r.search(text)] *)
Definition search (r : regex) (s : string) : option rmatch :=
  hd_error (finditer r s).

(** [re.sub(r, repl, s)] for a replacement without escapes. *)
Fixpoint sub_from (r : regex) (repl s : string) (skip : nat) : string :=
  match skip with
  | S n =>
      match s with
      | EmptyString => EmptyString
      | String _ s' => sub_from r repl s' n
      end
  | O =>
      match match_at r s 0, s with
      | Some m, String c s' =>
          match m_end m with
          | O => repl ++ String c (sub_from r repl s' 0)
          | S n => repl ++ sub_from r repl s' n
          end
      | Some m, EmptyString => repl
      | None, String c s' => String c (sub_from r repl s' 0)
      | None, EmptyString => EmptyString
      end
  end.

Definition sub (r : regex) (repl s : string) : string := sub_from r repl s 0.

(** *** Pattern notation helpers *)

Definition chr (c : ascii) : regex := Chr (Ascii.eqb c).

(** A letter under [(?i)]. *)
Definition chr_i (c : ascii) : regex :=
  Chr (fun x => Ascii.eqb (PyStr.lower_char x) (PyStr.lower_char c)).

Fixpoint lit (s : string) : regex :=
  match s with
  | EmptyString => Eps
  | String c EmptyString => chr c
  | String c s' => Cat (chr c) (lit s')
  end.

Fixpoint lit_i (s : string) : regex :=
  match s with
  | EmptyString => Eps
  | String c EmptyString => chr_i c
  | String c s' => Cat (chr_i c) (lit_i s')
  end.

Fixpoint seq (rs : list regex) : regex :=
  match rs with
  | [] => Eps
  | [r] => r
  | r :: rest => Cat r (seq rest)
  end.

Definition digits (lo hi : nat) : regex := Rep PyStr.is_digit lo (Some hi).
Definition spaces : regex := Rep PyStr.is_space 0 None.

End Re.

(** ** Hours parser *)

Open Scope list_scope.

Inductive day : Type := mon | tue | wed | thu | fri | sat | sun.

Definition day_eqb (a b : day) : bool :=
  match a, b with
  | mon, mon | tue, tue | wed, wed | thu, thu | fri, fri | sat, sat | sun, sun => true
  | _, _ => false
  end.

Definition DAY_ORDER : list day := [mon; tue; wed; thu; fri; sat; sun].

(** The string each member of [DAY_ORDER] is in the source. *)
Definition day_name (d : day) : string :=
  match d with
  | mon => "mon" | tue => "tue" | wed => "wed" | thu => "thu"
  | fri => "fri" | sat => "sat" | sun => "sun"
  end.

Definition DAY_ALIASES_table : list (string * day) :=
  [("mon", mon); ("monday", mon);
   ("tue", tue); ("tuesday", tue);
   ("wed", wed); ("wednesday", wed);
   ("thu", thu); ("thursday", thu);
   ("fri", fri); ("friday", fri);
   ("sat", sat); ("saturday", sat);
   ("sun", sun); ("sunday", sun)].

Fixpoint assoc {V : Type} (key : string) (table : list (string * V)) : option V :=
  match table with
  | [] => None
  | (k, v) :: rest => if String.eqb key k then Some v else assoc key rest
  end.

Definition DAY_ALIASES (key : string) : option day := assoc key DAY_ALIASES_table.

Inductive special_tag : Type :=
| public_holiday
| day_before_public_holiday
| day_after_public_holiday.

Definition SPECIAL_KEYS_table : list (string * special_tag) :=
  [("public holiday", public_holiday);
   ("day before public holiday", day_before_public_holiday);
   ("day after public holiday", day_after_public_holiday)].

Definition SPECIAL_KEYS (key : string) : option special_tag :=
  assoc key SPECIAL_KEYS_table.

(** [\d{1,2}:\d{2}] *)
Definition TIME_RE : Re.regex :=
  Re.seq [Re.digits 1 2; Re.chr ":"; Re.digits 2 2].

(** [[-–~]]: the hyphen, the en dash (three bytes) or the tilde. *)
Definition DASH_RE : Re.regex :=
  Re.Alt (Re.chr "-") (Re.Alt (Re.lit "–") (Re.chr "~")).

(** [(?P<s>\d{1,2}:\d{2})\s*[-–~]\s*(?P<e>\d{1,2}:\d{2})] *)
Definition RANGE_RE : Re.regex :=
  Re.seq [Re.Grp "s" TIME_RE; Re.spaces; DASH_RE; Re.spaces; Re.Grp "e" TIME_RE].

(** [(?i) L\.? \s* O\.? \s* (?: (Food|Foods?|Drink|Drinks?) \s* )? (?P<t>\d{1,2}:\d{2})]
    (written here with blanks between the parts). *)
Definition LO_RE : Re.regex :=
  Re.seq
    [Re.chr_i "L"; Re.Opt (Re.chr "."); Re.spaces;
     Re.chr_i "O"; Re.Opt (Re.chr "."); Re.spaces;
     Re.Opt
       (Re.Cat
          (Re.Grp "1"
             (Re.Alt (Re.lit_i "Food")
                (Re.Alt (Re.Cat (Re.lit_i "Food") (Re.Opt (Re.chr_i "s")))
                   (Re.Alt (Re.lit_i "Drink")
                      (Re.Cat (Re.lit_i "Drink") (Re.Opt (Re.chr_i "s")))))))
          Re.spaces);
     Re.Grp "t" TIME_RE].

(** [\s+] *)
Definition WS_RE : Re.regex := Re.Rep PyStr.is_space 1 None.

(** [(?i)L\.?\s*\.?O\.?] *)
Definition LO_NORM_RE : Re.regex :=
  Re.seq
    [Re.chr_i "L"; Re.Opt (Re.chr "."); Re.spaces; Re.Opt (Re.chr ".");
     Re.chr_i "O"; Re.Opt (Re.chr ".")].

Definition _norm (s : string) : string :=
  let s := PyStr.replace "〜" "-" s in
  let s := PyStr.replace "–" "-" s in
  let s := PyStr.replace "—" "-" s in
  let s := PyStr.replace "～" "-" s in
  let s := PyStr.replace "to" "-" s in
  let s := Re.sub WS_RE " " (PyStr.strip s) in
  let s := Re.sub LO_NORM_RE "LO" s in
  s.

(** [h, m = map(int, t.split(':'))]: fails unless there are exactly two
    pieces and both are integers. *)
Definition _to_minutes (t : string) : option Z :=
  match PyStr.split ":" t with
  | [hs; ms] =>
      h <- PyStr.int hs ;;
      m <- PyStr.int ms ;;
      let h := if (h =? 24)%Z then 0%Z else h in
      Some (h * 60 + m)%Z
  | _ => None
  end.

Definition _crosses_midnight (s e : string) : option bool :=
  es <- _to_minutes e ;;
  ss <- _to_minutes s ;;
  Some (es <=? ss)%Z.

(** The [last_order] dictionary: its keys are among generic, food, drinks. *)
Record lo_dict : Type := mkLo {
  lo_generic : option string;
  lo_food : option string;
  lo_drinks : option string
}.

Definition lo_empty : lo_dict := mkLo None None None.

Definition lo_is_empty (lo : lo_dict) : bool :=
  match lo with
  | mkLo None None None => true
  | _ => false
  end.

(** A block.  [carried_from_prev] is absent ([false]) on parsed blocks. *)
Record block : Type := mkBlock {
  b_open : string;
  b_close : string;
  crosses_midnight : bool;
  last_order : option lo_dict;
  carried_from_prev : bool
}.

(** An element of [los]: position, lower-cased qualifier, time. *)
Definition lo_marker : Type := (nat * option string * string)%type.

(** The body of the inner loop of [parse_time_ranges]: file one marker. *)
Definition lo_assign (lo : lo_dict) (lo_kind : option string) (lo_time : string)
    : lo_dict :=
  match lo_kind with
  | None | Some EmptyString =>
      mkLo (Some lo_time) (lo_food lo) (lo_drinks lo)
  | Some k =>
      if PyStr.contains "drink" k
      then mkLo (lo_generic lo) (lo_food lo) (Some lo_time)
      else mkLo (lo_generic lo) (Some lo_time) (lo_drinks lo)
  end.

(** [rs <= lo_pos < next_range_start]; [None] is [float('inf')]. *)
Definition in_lo_window (rs : nat) (next_range_start : option nat) (lo_pos : nat)
    : bool :=
  (rs <=? lo_pos)%nat &&
  match next_range_start with
  | Some n => (lo_pos <? n)%nat
  | None => true
  end.

Definition collect_lo (rs : nat) (next_range_start : option nat)
    (los : list lo_marker) : lo_dict :=
  fold_left
    (fun lo (mk : lo_marker) =>
       let '(lo_pos, lo_kind, lo_time) := mk in
       if in_lo_window rs next_range_start lo_pos
       then lo_assign lo lo_kind lo_time
       else lo)
    los lo_empty.

(** An element of [ranges]: start, end, and the two groups. *)
Definition range_item : Type := (nat * nat * string * string)%type.

Definition range_start (r : range_item) : nat :=
  let '(rs, _, _, _) := r in rs.

(** The outer loop of [parse_time_ranges]. *)
Fixpoint build_blocks (ranges : list range_item) (los : list lo_marker)
    : option (list block) :=
  match ranges with
  | [] => Some []
  | (rs, re_, s, e) :: rest =>
      crosses <- _crosses_midnight s e ;;
      let next_range_start := option_map range_start (hd_error rest) in
      let lo := collect_lo rs next_range_start los in
      let blk := mkBlock s e crosses
                   (if lo_is_empty lo then None else Some lo) false in
      blocks <- build_blocks rest los ;;
      Some (blk :: blocks)
  end.

(** A named group always takes part in a match; a missing one is an error. *)
Definition range_of_match (m : Re.rmatch) : option range_item :=
  s <- Re.group "s" m ;;
  e <- Re.group "e" m ;;
  Some (Re.m_start m, Re.m_end m, s, e).

(** [m.group(1).lower() if m.group(1) else None] for the qualifier. *)
Definition lo_of_match (m : Re.rmatch) : option lo_marker :=
  t <- Re.group "t" m ;;
  let kind := match Re.group "1" m with
              | Some g => if PyStr.truthy g then Some (PyStr.lower g) else None
              | None => None
              end in
  Some (Re.m_start m, kind, t).

Fixpoint map_opt {A B : Type} (f : A -> option B) (l : list A) : option (list B) :=
  match l with
  | [] => Some []
  | a :: rest =>
      b <- f a ;;
      bs <- map_opt f rest ;;
      Some (b :: bs)
  end.

(** [ranges]: the matches of [RANGE_RE] in the normalized text. *)
Definition find_ranges (text : string) : option (list range_item) :=
  map_opt range_of_match (Re.finditer RANGE_RE text).

(** [los]: the matches of [LO_RE] in the normalized text. *)
Definition find_los (text : string) : option (list lo_marker) :=
  map_opt lo_of_match (Re.finditer LO_RE text).

Definition parse_time_ranges (dtl_text : string) : option (list block) :=
  let text := _norm dtl_text in
  ranges <- find_ranges text ;;
  los <- find_los text ;;
  build_blocks ranges los.

(** *** Day titles *)

(** [([A-Za-z]{3,9})\s*-\s*([A-Za-z]{3,9})] *)
Definition DAY_RANGE_RE : Re.regex :=
  Re.seq
    [Re.Grp "1" (Re.Rep PyStr.is_alpha 3 (Some 9)); Re.spaces; Re.chr "-";
     Re.spaces; Re.Grp "2" (Re.Rep PyStr.is_alpha 3 (Some 9))].

(** The [special] dictionary: the three flags and, under ["raw_titles"], a
    set of strings, kept as a list without repetition ([None]: key absent). *)
Record special : Type := mkSpecial {
  sp_public_holiday : bool;
  sp_day_before : bool;
  sp_day_after : bool;
  raw_titles : option (list string)
}.

Definition special_empty : special := mkSpecial false false false None.

(** [sk in special] *)
Definition sp_has (tag : special_tag) (sp : special) : bool :=
  match tag with
  | public_holiday => sp_public_holiday sp
  | day_before_public_holiday => sp_day_before sp
  | day_after_public_holiday => sp_day_after sp
  end.

(** [special[tag] = True] *)
Definition sp_set (tag : special_tag) (sp : special) : special :=
  match tag with
  | public_holiday =>
      mkSpecial true (sp_day_before sp) (sp_day_after sp) (raw_titles sp)
  | day_before_public_holiday =>
      mkSpecial (sp_public_holiday sp) true (sp_day_after sp) (raw_titles sp)
  | day_after_public_holiday =>
      mkSpecial (sp_public_holiday sp) (sp_day_before sp) true (raw_titles sp)
  end.

Definition str_mem (x : string) (l : list string) : bool :=
  existsb (String.eqb x) l.

Definition set_add (x : string) (l : list string) : list string :=
  if str_mem x l then l else l ++ [x].

(** [special.setdefault("raw_titles", set()).add(c)] *)
Definition sp_add_raw (c : string) (sp : special) : special :=
  mkSpecial (sp_public_holiday sp) (sp_day_before sp) (sp_day_after sp)
    (Some (set_add c match raw_titles sp with
                     | Some l => l
                     | None => []
                     end)).

Fixpoint index_from (a : string) (l : list day) (i : nat) : option nat :=
  match l with
  | [] => None
  | d :: rest => if String.eqb a (day_name d) then Some i else index_from a rest (S i)
  end.

(** [DAY_ORDER.index(a)], [None] when [a] is not in [DAY_ORDER]. *)
Definition DAY_ORDER_index (a : string) : option nat := index_from a DAY_ORDER 0.

(** [DAY_ALIASES.get(a, a[:3])] *)
Definition alias_or_prefix (a : string) : string :=
  match DAY_ALIASES a with
  | Some d => day_name d
  | None => PyStr.take 3 a
  end.

(** [l[i:j]] *)
Definition slice {A : Type} (i j : nat) (l : list A) : list A :=
  skipn i (firstn j l).

(** The days a matched range adds to [weekday_days] (nothing when an end is
    no day). *)
Definition range_days (m : Re.rmatch) : option (list day) :=
  a <- Re.group "1" m ;;
  b <- Re.group "2" m ;;
  let a := alias_or_prefix (PyStr.lower a) in
  let b := alias_or_prefix (PyStr.lower b) in
  match DAY_ORDER_index a, DAY_ORDER_index b with
  | Some ia, Some ib =>
      if (ia <=? ib)%nat
      then Some (slice ia (ib + 1) DAY_ORDER)
      else Some (skipn ia DAY_ORDER ++ firstn (ib + 1) DAY_ORDER)
  | _, _ => Some []
  end.

(** The body of the loop over the chunks of a title. *)
Definition chunk_step (st : list day * special) (c : string)
    : option (list day * special) :=
  let '(weekday_days, sp) := st in
  let key := PyStr.lower c in
  match DAY_ALIASES key with
  | Some d => Some (weekday_days ++ [d], sp)
  | None =>
      match SPECIAL_KEYS key with
      | Some tag => Some (weekday_days, sp_set tag sp)
      | None =>
          let key2 := PyStr.replace "—" "-"
                        (PyStr.replace "–" "-" (PyStr.replace " to " "-" key)) in
          match Re.match_ DAY_RANGE_RE key2 with
          | Some m =>
              ds <- range_days m ;;
              Some (weekday_days ++ ds, sp)
          | None => Some (weekday_days, sp_add_raw c sp)
          end
      end
  end.

Fixpoint fold_opt {S A : Type} (f : S -> A -> option S) (l : list A) (st : S)
    : option S :=
  match l with
  | [] => Some st
  | a :: rest =>
      st' <- f st a ;;
      fold_opt f rest st'
  end.

Definition _split_and_normalize_days (title : string)
    : option (list day * special) :=
  if negb (PyStr.truthy title) then Some ([], special_empty)
  else
    let chunks := map PyStr.strip (PyStr.split "," title) in
    fold_opt chunk_step chunks ([], special_empty).

(** ** Open-now evaluator *)

(** [now_local]: the fields of the [datetime] that the evaluator reads. *)
Record datetime : Type := mkTime {
  hour : Z;
  minute : Z
}.

(** A day of the weekly schedule: the string ["closed"] or a list of blocks. *)
Inductive day_schedule : Type :=
| Closed
| Blocks (bs : list block).

Record segment : Type := mkSegment {
  seg_start : string;
  seg_end : string;
  seg_last_order : option lo_dict
}.

(** The dictionaries [calc_open_now] returns. *)
Inductive open_status : Type :=
| StatusClosedBare
| StatusClosed (opens_in_min : option Z)
| StatusOpen (seg : segment) (closes_in_min lo_in_min : option Z) (crosses : bool).

(** [if lo:] on [b.get("last_order")]: a dictionary that is not empty. *)
Definition lo_truthy (lo : option lo_dict) : option lo_dict :=
  match lo with
  | Some d => if lo_is_empty d then None else Some d
  | None => None
  end.

(** [lo_times]: the times of the kinds present, in the order generic, food,
    drinks. *)
Definition lo_times (d : lo_dict) : option (list Z) :=
  map_opt _to_minutes
    (filter PyStr.truthy
       (flat_map (fun t : option string => match t with
                                            | Some x => [x]
                                            | None => []
                                            end)
          [lo_generic d; lo_food d; lo_drinks d])).

(** [min(l)] for a non-empty list. *)
Definition list_min (x : Z) (l : list Z) : Z := fold_left Z.min l x.

Definition in_window_of (crosses : bool) (start end_ now_min : Z) : bool :=
  if negb crosses
  then (start <=? now_min)%Z && (now_min <? end_)%Z
  else (now_min >=? start)%Z || (now_min <? end_)%Z.

Definition closes_in_of (crosses : bool) (start end_ now_min : Z) : Z :=
  if negb crosses then (end_ - now_min)%Z
  else if (now_min >=? start)%Z then ((24 * 60 - now_min) + end_)%Z
       else (end_ - now_min)%Z.

Definition lo_in_of (crosses : bool) (start end_ now_min lo_t : Z) : option Z :=
  if negb crosses then
    if (now_min <=? lo_t)%Z && (lo_t <=? end_)%Z
    then Some (Z.max (lo_t - now_min) 0) else None
  else if (now_min >=? start)%Z then
    if (lo_t >=? start)%Z
    then Some (Z.max (lo_t - now_min) 0)
    else Some ((24 * 60 - now_min) + lo_t)%Z
  else
    if (lo_t >=? now_min)%Z
    then Some (Z.max (lo_t - now_min) 0) else None.

(** The body of the first loop for one block: [Some (Some r)] returns [r],
    [Some None] goes on to the next block. *)
Definition eval_block (b : block) (now_min : Z) : option (option open_status) :=
  start <- _to_minutes (b_open b) ;;
  end_ <- _to_minutes (b_close b) ;;
  let crosses := crosses_midnight b in
  if in_window_of crosses start end_ now_min then
    let closes_in := closes_in_of crosses start end_ now_min in
    let lo := lo_truthy (last_order b) in
    lo_in <- match lo with
             | Some d =>
                 ts <- lo_times d ;;
                 match ts with
                 | t :: rest =>
                     Some (lo_in_of crosses start end_ now_min (list_min t rest))
                 | [] => Some None
                 end
             | None => Some None
             end ;;
    Some (Some (StatusOpen (mkSegment (b_open b) (b_close b) lo)
                  (Some closes_in) lo_in crosses))
  else Some None.

(** The second loop: the first block, not carried, that opens after now. *)
Fixpoint first_future (bs : list block) (now_min : Z) : option (option Z) :=
  match bs with
  | [] => Some None
  | b :: rest =>
      st <- _to_minutes (b_open b) ;;
      if carried_from_prev b then first_future rest now_min
      else if (st >? now_min)%Z then Some (Some (st - now_min)%Z)
           else first_future rest now_min
  end.

Fixpoint scan_blocks (bs : list block) (now_min : Z) : option (option open_status) :=
  match bs with
  | [] => Some None
  | b :: rest =>
      r <- eval_block b now_min ;;
      match r with
      | Some st => Some (Some st)
      | None => scan_blocks rest now_min
      end
  end.

Definition calc_open_now (blocks_for_day : day_schedule) (now_local : datetime)
    : option open_status :=
  match blocks_for_day with
  | Closed | Blocks [] => Some StatusClosedBare
  | Blocks bs =>
      let now_min := (hour now_local * 60 + minute now_local)%Z in
      r <- scan_blocks bs now_min ;;
      match r with
      | Some st => Some st
      | None =>
          ff <- first_future bs now_min ;;
          Some (StatusClosed ff)
      end
  end.

(** ** Schedule builder *)

(** An element of [hours_raw]: the keys the builder reads. *)
Record entry : Type := mkEntry {
  e_title : option string;
  e_list_title : option string;
  e_dtl : option string;
  e_dtl_text : option string;
  e_dtlText : option string
}.

(** [a or b] where [b] is a string: [a] when it is a non-empty string. *)
Definition or_str (a : option string) (b : string) : string :=
  match a with
  | Some x => if PyStr.truthy x then x else b
  | None => b
  end.

Definition entry_title (e : entry) : string :=
  or_str (e_title e) (or_str (e_list_title e) "").

Definition entry_dtl (e : entry) : string :=
  or_str (e_dtl e) (or_str (e_dtl_text e) (or_str (e_dtlText e) "")).

Definition weekly : Type := day -> day_schedule.

Definition weekly_init : weekly := fun _ => Blocks [].

Definition weekly_set (w : weekly) (d : day) (v : day_schedule) : weekly :=
  fun d' => if day_eqb d' d then v else w d'.

Record exceptions : Type := mkExceptions {
  policies : list string;
  ex_public_holiday : option (list block);
  ex_day_before : option (list block);
  ex_day_after : option (list block)
}.

Definition exceptions_init : exceptions := mkExceptions [] None None None.

Definition explicit_closed (dtl : string) : bool :=
  let dtl_lower := PyStr.lower (PyStr.strip dtl) in
  String.eqb dtl_lower "closed" ||
  (PyStr.contains "closed" dtl_lower &&
   negb (match Re.search RANGE_RE dtl_lower with
         | Some _ => true
         | None => false
         end)).

(** [for day in days: weekly[day] = "closed"] *)
Definition close_days (w : weekly) (days : list day) : weekly :=
  fold_left (fun w d => weekly_set w d Closed) days w.

(** [for day in days: if weekly.get(day) != "closed": weekly[day].extend(blocks)] *)
Definition extend_days (w : weekly) (days : list day) (blocks : list block)
    : weekly :=
  fold_left
    (fun w d =>
       match w d with
       | Closed => w
       | Blocks bs => weekly_set w d (Blocks (bs ++ blocks))
       end)
    days w.

Fixpoint insert_sorted (x : string) (l : list string) : list string :=
  match l with
  | [] => [x]
  | y :: rest => if String.leb x y then x :: l else y :: insert_sorted x rest
  end.

(** [sorted(l)] on strings. *)
Definition sorted (l : list string) : list string :=
  fold_right insert_sorted [] l.

(** [exceptions.setdefault(sk, []).extend(blocks)] *)
Definition ex_extend (tag : special_tag) (blocks : list block) (ex : exceptions)
    : exceptions :=
  let ext (cur : option (list block)) : option (list block) :=
    Some (match cur with
          | Some l => l
          | None => []
          end ++ blocks) in
  match tag with
  | public_holiday =>
      mkExceptions (policies ex) (ext (ex_public_holiday ex)) (ex_day_before ex)
        (ex_day_after ex)
  | day_before_public_holiday =>
      mkExceptions (policies ex) (ex_public_holiday ex) (ext (ex_day_before ex))
        (ex_day_after ex)
  | day_after_public_holiday =>
      mkExceptions (policies ex) (ex_public_holiday ex) (ex_day_before ex)
        (ext (ex_day_after ex))
  end.

Definition add_policies (ps : list string) (ex : exceptions) : exceptions :=
  mkExceptions (policies ex ++ ps) (ex_public_holiday ex) (ex_day_before ex)
    (ex_day_after ex).

(** [SPECIAL_KEYS.values()], in the order of the dictionary. *)
Definition SPECIAL_KEYS_values : list special_tag := map snd SPECIAL_KEYS_table.

(** The body of the loop over [hours_raw]. *)
Definition entry_step (st : weekly * exceptions) (e : entry)
    : option (weekly * exceptions) :=
  let '(w, ex) := st in
  let title := entry_title e in
  let dtl := entry_dtl e in
  ds <- _split_and_normalize_days title ;;
  let '(days, sp) := ds in
  if explicit_closed dtl then Some (close_days w days, ex)
  else
    blocks <- parse_time_ranges dtl ;;
    let w := extend_days w days blocks in
    let ex := match raw_titles sp with
              | Some rt => add_policies (sorted rt) ex
              | None => ex
              end in
    let ex := fold_left
                (fun ex sk => if sp_has sk sp then ex_extend sk blocks ex else ex)
                SPECIAL_KEYS_values ex in
    Some (w, ex).

(** [notes_structured]: [None] when it is no dictionary; its [closed_on]. *)
Definition notes : Type := option (option string).

Definition build_schedule_fixed (hours_raw : list entry) (notes_structured : notes)
    : option (weekly * exceptions) :=
  match hours_raw with
  | [] => Some (weekly_init, exceptions_init)
  | _ =>
      st <- fold_opt entry_step hours_raw (weekly_init, exceptions_init) ;;
      let '(w, ex) := st in
      let ex := match notes_structured with
                | Some (Some closed_on) =>
                    if PyStr.truthy closed_on then add_policies [closed_on] ex else ex
                | _ => ex
                end in
      Some (w, ex)
  end.

(** ** Notions the specification uses *)

(** Every character of [w] is in the class. *)
Fixpoint all_in (cls : ascii -> bool) (w : string) : bool :=
  match w with
  | EmptyString => true
  | String c w' => cls c && all_in cls w'
  end.

(** [Matches r w c c']: the pattern [r] can consume exactly [w], taking the
    captures from [c] to [c']. *)
Inductive Matches : Re.regex -> string -> Re.captures -> Re.captures -> Prop :=
| M_Eps c : Matches Re.Eps EmptyString c c
| M_Chr cls a c : cls a = true -> Matches (Re.Chr cls) (String a EmptyString) c c
| M_Rep cls lo hi w c :
    all_in cls w = true ->
    (lo <= String.length w)%nat ->
    (forall h, hi = Some h -> (String.length w <= h)%nat) ->
    Matches (Re.Rep cls lo hi) w c c
| M_Cat r1 r2 w1 w2 c c1 c2 :
    Matches r1 w1 c c1 -> Matches r2 w2 c1 c2 ->
    Matches (Re.Cat r1 r2) (w1 ++ w2)%string c c2
| M_AltL r1 r2 w c c' : Matches r1 w c c' -> Matches (Re.Alt r1 r2) w c c'
| M_AltR r1 r2 w c c' : Matches r2 w c c' -> Matches (Re.Alt r1 r2) w c c'
| M_OptSome r w c c' : Matches r w c c' -> Matches (Re.Opt r) w c c'
| M_OptNone r c : Matches (Re.Opt r) EmptyString c c
| M_Grp g r w c c' : Matches r w c c' -> Matches (Re.Grp g r) w c ((g, w) :: c').

(** A time as [RANGE_RE] captures it: digits, a colon, digits. *)
Definition time_form (t : string) : Prop :=
  exists h m : string,
    t = (h ++ String ":" m)%string /\
    all_in PyStr.is_digit h = true /\ h <> EmptyString /\
    all_in PyStr.is_digit m = true /\ m <> EmptyString.

(** The two times of a range are well formed. *)
Definition range_wf (r : range_item) : Prop :=
  let '(_, _, s, e) := r in time_form s /\ time_form e.

(** *** Evaluator *)

Definition now_min_of (now_local : datetime) : Z :=
  (hour now_local * 60 + minute now_local)%Z.

(** Whether the window of [b] contains [now_min] (a failure when a time of
    [b] is malformed). *)
Definition window_contains (b : block) (now_min : Z) : option bool :=
  start <- _to_minutes (b_open b) ;;
  end_ <- _to_minutes (b_close b) ;;
  Some (in_window_of (crosses_midnight b) start end_ now_min).

(** Minutes from now until close: a full day is added exactly when the window
    crosses midnight and now is in its half before midnight. *)
Definition minutes_until_close (crosses : bool) (start end_ now_min : Z) : Z :=
  (end_ - now_min + (if crosses && (start <=? now_min) then 1440 else 0))%Z.

(** The last-order times of [b] are well formed. *)
Definition lo_parses (b : block) : Prop :=
  match lo_truthy (last_order b) with
  | Some d => lo_times d <> None
  | None => True
  end.

Definition is_open (st : open_status) : bool :=
  match st with
  | StatusOpen _ _ _ _ => true
  | _ => false
  end.

Definition closes_in_min (st : open_status) : option Z :=
  match st with
  | StatusOpen _ c _ _ => c
  | _ => None
  end.

Definition lo_in_min (st : open_status) : option Z :=
  match st with
  | StatusOpen _ _ l _ => l
  | _ => None
  end.

(** [open - now] for the blocks, in list order, that are not carried from the
    previous day and open strictly after now. *)
Definition future_opens (bs : list block) (now_min : Z) : list Z :=
  flat_map
    (fun b =>
       match _to_minutes (b_open b) with
       | Some st =>
           if negb (carried_from_prev b) && (st >? now_min)%Z
           then [(st - now_min)%Z] else []
       | None => []
       end)
    bs.

(** [opens_in_min] as the specification words it: the minimum of
    [future_opens], null when there is none. *)
Definition spec_opens_in_min (bs : list block) (now_min : Z) : option Z :=
  match future_opens bs now_min with
  | [] => None
  | x :: rest => Some (list_min x rest)
  end.

(** *** Last-order windows *)

Inductive lo_kind : Type := Generic | Food | Drinks.

Definition lo_kind_eqb (a b : lo_kind) : bool :=
  match a, b with
  | Generic, Generic | Food, Food | Drinks, Drinks => true
  | _, _ => false
  end.

(** The kind of a marker: drinks when the qualifier contains "drink", food
    for any other qualifier, generic without one. *)
Definition kind_of (q : option string) : lo_kind :=
  match q with
  | None | Some EmptyString => Generic
  | Some k => if PyStr.contains "drink" k then Drinks else Food
  end.

Definition lo_field (k : lo_kind) (d : lo_dict) : option string :=
  match k with
  | Generic => lo_generic d
  | Food => lo_food d
  | Drinks => lo_drinks d
  end.

Definition lo_get (k : lo_kind) (lo : option lo_dict) : option string :=
  match lo with
  | Some d => lo_field k d
  | None => None
  end.

Definition marker_pos (mk : lo_marker) : nat := fst (fst mk).
Definition marker_kind (mk : lo_marker) : lo_kind := kind_of (snd (fst mk)).
Definition marker_time (mk : lo_marker) : string := snd mk.

(** The markers whose position is in the window that starts at [rs] and ends
    before [next]. *)
Definition markers_in_window (rs : nat) (next : option nat) (los : list lo_marker)
    : list lo_marker :=
  filter (fun mk => in_lo_window rs next (marker_pos mk)) los.

Definition of_kind (k : lo_kind) (los : list lo_marker) : list lo_marker :=
  filter (fun mk => lo_kind_eqb (marker_kind mk) k) los.

Definition last_time (los : list lo_marker) : option string :=
  option_map marker_time (hd_error (rev los)).

(** The start of the range after the [i]-th one. *)
Definition next_start (ranges : list range_item) (i : nat) : option nat :=
  option_map range_start (nth_error ranges (S i)).

(** *** Day ranges *)

Definition day_index (d : day) : nat :=
  match d with
  | mon => 0 | tue => 1 | wed => 2 | thu => 3 | fri => 4 | sat => 5 | sun => 6
  end.

Definition day_at (i : nat) : day := nth (i mod 7) DAY_ORDER mon.

(** Steps from [a] forward to [b] along the cyclic order. *)
Definition cyclic_distance (a b : day) : nat :=
  (day_index b + 7 - day_index a) mod 7.

(** The days from [a] forward to [b], both included, wrapping after sun. *)
Definition cyclic_range (a b : day) : list day :=
  map (fun i => day_at (day_index a + i)) (seq 0 (cyclic_distance a b + 1)).

(** The separators of a range of days: hyphen, en dash, em dash and the word
    "to", also with blanks around a dash. *)
Definition range_separators : list string :=
  ["-"; "–"; "—"; " to "; " - "; " – "; " — "].

(** *** Policies *)

(** What one entry adds to [policies]: nothing when it is explicit-closed,
    else its opaque titles, sorted. *)
Definition entry_policies (e : entry) : list string :=
  if explicit_closed (entry_dtl e) then []
  else match _split_and_normalize_days (entry_title e) with
       | Some (_, sp) =>
           match raw_titles sp with
           | Some rt => sorted rt
           | None => []
           end
       | None => []
       end.

Definition closed_on_policy (n : notes) : list string :=
  match n with
  | Some (Some closed_on) => if PyStr.truthy closed_on then [closed_on] else []
  | _ => []
  end.

(** The opaque titles of a [special] are kept without repetition. *)
Definition raw_titles_distinct (sp : special) : Prop :=
  match raw_titles sp with
  | Some l => NoDup l
  | None => True
  end.

(** An entry with a title and a detail. *)
Definition raw_entry (title dtl : string) : entry :=
  mkEntry (Some title) None (Some dtl) None None.

(** A block as the parser builds it, without last order. *)
Definition plain_block (o c : string) (crosses : bool) : block :=
  mkBlock o c crosses None false.

(** ** Further functions of the source *)

(** *** Well-formed blocks *)





(** *** Display *)

Definition DAY_ABBR (d : day) : string :=
  match d with
  | mon => "Mon" | tue => "Tue" | wed => "Wed" | thu => "Thu"
  | fri => "Fri" | sat => "Sat" | sun => "Sun"
  end.

(** [lo.get(k)] where it is tested for truth: a non-empty string. *)
Definition get_truthy (o : option string) : option string :=
  match o with
  | Some x => if PyStr.truthy x then Some x else None
  | None => None
  end.

(** [b.get("last_order") or {}] *)
Definition lo_or_empty (lo : option lo_dict) : lo_dict :=
  match lo with
  | Some d => d
  | None => lo_empty
  end.

(** [sep.join(l)] *)
Definition join (sep : string) (l : list string) : string := String.concat sep l.

(** The food and drinks parts of a last-order label. *)
Definition food_drinks_parts (d : lo_dict) : list string :=
  match get_truthy (lo_food d) with
  | Some f => [("Food " ++ f)%string]
  | None => []
  end ++
  match get_truthy (lo_drinks d) with
  | Some x => [("Drinks " ++ x)%string]
  | None => []
  end.

Definition _range_label_for_display (b : block) : string :=
  let seg := (b_open b ++ "–" ++ b_close b)%string in
  let lo := lo_or_empty (last_order b) in
  let parts := food_drinks_parts lo in
  let parts := match get_truthy (lo_generic lo), parts with
               | Some g, [] => parts ++ [g]
               | _, _ => parts
               end in
  match parts with
  | [] => seg
  | _ => (seg ++ " (LO " ++ join " / " parts ++ ")")%string
  end.

(** The body of the loop of [compact_today]: the label of one block. *)
Definition compact_label (b : block) : string :=
  let seg := (b_open b ++ "–" ++ b_close b)%string in
  let lo_parts :=
    match lo_truthy (last_order b) with
    | Some lo =>
        let parts := food_drinks_parts lo in
        match get_truthy (lo_generic lo),
              get_truthy (lo_food lo), get_truthy (lo_drinks lo) with
        | Some g, None, None => parts ++ [g]
        | _, _, _ => parts
        end
    | None => []
    end in
  match lo_parts with
  | [] => seg
  | _ => (seg ++ " (LO " ++ join " / " lo_parts ++ ")")%string
  end.

(** [labels.insert(1, x)] *)
Definition insert_second (x : string) (labels : list string) : list string :=
  match labels with
  | [] => [x]
  | l :: rest => l :: x :: rest
  end.

(** The list [labels] of [compact_today] before it is joined. *)
Definition compact_labels (bs : list block) : list string :=
  let labels := map compact_label bs in
  match bs with
  | a :: b :: _ =>
      insert_second ("Break " ++ b_close a ++ "–" ++ b_open b)%string labels
  | _ => labels
  end.

Definition compact_today (blocks_for_day : day_schedule) : string :=
  match blocks_for_day with
  | Closed | Blocks [] => "Closed"
  | Blocks bs => join " · " (compact_labels bs)
  end.

(** *** Today's summary *)

(** [local_now]: the weekday (0 is Monday) and the clock. *)
Record local_time : Type := mkLocal {
  weekday : nat;
  clock : datetime
}.

(** [carried = dict(b); carried["carried_from_prev"] = True] *)
Definition carry (b : block) : block :=
  mkBlock (b_open b) (b_close b) (crosses_midnight b) (last_order b) true.

(** The blocks of the previous day that go on after midnight. *)
Definition carried_blocks (prev : day_schedule) : list block :=
  match prev with
  | Closed => []
  | Blocks bs => map carry (filter crosses_midnight bs)
  end.

(** [blocks_for_status]: today's blocks, then the carried ones. *)
Definition blocks_for_status (today prev : day_schedule) : list block :=
  match today with
  | Closed | Blocks [] => []
  | Blocks bs => bs
  end ++ carried_blocks prev.

Definition summarize_for_today (w : weekly) (local_now : local_time)
    : option (string * open_status) :=
  dow <- nth_error DAY_ORDER (weekday local_now) ;;
  let blocks_today := match w dow with
                      | Blocks [] => Closed
                      | s => s
                      end in
  prev_dow <- nth_error DAY_ORDER
                (Z.to_nat ((Z.of_nat (weekday local_now) - 1) mod 7)) ;;
  let bfs := blocks_for_status blocks_today (w prev_dow) in
  st <- calc_open_now (match bfs with
                       | [] => Closed
                       | _ => Blocks bfs
                       end)
          (clock local_now) ;;
  Some (compact_today blocks_today, st).

(** *** Notions for the builder and the titles *)

(** How often [d] occurs in [days]. *)
Definition count_day (d : day) (days : list day) : nat :=
  List.length (filter (day_eqb d) days).

(** [blocks] repeated [n] times. *)
Definition repeat_blocks (n : nat) (blocks : list block) : list block :=
  List.concat (repeat blocks n).

(** The weekdays the title of an entry resolves to. *)
Definition entry_days (e : entry) : list day :=
  match _split_and_normalize_days (entry_title e) with
  | Some (days, _) => days
  | None => []
  end.

(** The opaque titles of a [special], as a list. *)
Definition sp_raw (sp : special) : list string :=
  match raw_titles sp with
  | Some l => l
  | None => []
  end.

(** *** Notions for the evaluator *)

(** A clock time of a day. *)
Definition clock_wf (t : datetime) : Prop :=
  (0 <= hour t < 24)%Z /\ (0 <= minute t < 60)%Z.

(** Both times of the block are minutes of one day, and its flag is the
    comparison of its close with its open, as the parser sets it. *)
Definition in_day (b : block) : Prop :=
  exists s e,
    _to_minutes (b_open b) = Some s /\ _to_minutes (b_close b) = Some e /\
    (0 <= s < 1440)%Z /\ (0 <= e < 1440)%Z /\
    crosses_midnight b = (e <=? s)%Z.

(** The blocks of a day of its own: none for the closed day. *)
Definition own_blocks (s : day_schedule) : list block :=
  match s with
  | Closed => []
  | Blocks bs => bs
  end.

(** The index of the day before: [(local_now.weekday() - 1) % 7]. *)
Definition prev_weekday (n : nat) : nat :=
  Z.to_nat ((Z.of_nat n - 1) mod 7).

(** *** Grouping of days *)

(** [DAY_ORDER.index(d)] for a member of [DAY_ORDER]. *)
Definition index_of_day (d : day) : nat :=
  match DAY_ORDER_index (day_name d) with
  | Some i => i
  | None => 0
  end.

(** [set(day_blocks)]: the members, each once. *)
Fixpoint dedup_days (l : list day) : list day :=
  match l with
  | [] => []
  | d :: rest =>
      if existsb (day_eqb d) rest then dedup_days rest else d :: dedup_days rest
  end.

Fixpoint insert_day (d : day) (l : list day) : list day :=
  match l with
  | [] => [d]
  | x :: rest =>
      if (index_of_day d <=? index_of_day x)%nat then d :: l
      else x :: insert_day d rest
  end.

(** [sorted(l, key=lambda d: DAY_ORDER.index(d))] *)
Definition sort_days (l : list day) : list day := fold_right insert_day [] l.

(** The body of the loop of [group_days]: [d] goes on the current run when
    it follows its last day, else it starts a new run. *)
Definition run_step (st : list (list day) * list day) (d : day)
    : list (list day) * list day :=
  let '(ranges, cur) := st in
  if (index_of_day d =? index_of_day (last cur mon) + 1)%nat
  then (ranges, cur ++ [d])
  else (ranges ++ [cur], [d]).

(** The list [ranges] of [group_days] for the sorted days. *)
Definition day_runs (days : list day) : list (list day) :=
  match days with
  | [] => []
  | d0 :: rest =>
      let '(ranges, cur) := fold_left run_step rest ([], [d0]) in
      ranges ++ [cur]
  end.

Definition run_label (r : list day) : string :=
  match r with
  | [x] => DAY_ABBR x
  | _ => (DAY_ABBR (hd mon r) ++ "–" ++ DAY_ABBR (last r mon))%string
  end.

Definition group_days (day_blocks : list day) : string :=
  match day_blocks with
  | [] => EmptyString
  | _ => join ", " (map run_label (day_runs (sort_days (dedup_days day_blocks))))
  end.

(** Consecutive runs leave a day out between them. *)
Fixpoint runs_apart (runs : list (list day)) : Prop :=
  match runs with
  | r1 :: (r2 :: _) as rest =>
      (index_of_day (last r1 mon) + 1 < index_of_day (hd mon r2))%nat /\
      runs_apart rest
  | _ => True
  end.

(** *** The week in one line *)

(** [sorted(lo.items())]: the keys in the order drinks, food, generic. *)
Definition lo_items_sorted (d : lo_dict) : list (string * string) :=
  match lo_drinks d with Some v => [("drinks", v)] | None => [] end ++
  match lo_food d with Some v => [("food", v)] | None => [] end ++
  match lo_generic d with Some v => [("generic", v)] | None => [] end.

Definition block_sig (b : block) : string :=
  let lo := lo_or_empty (last_order b) in
  let lo_sig :=
    if lo_is_empty lo then EmptyString
    else join ";" (map (fun kv => (fst kv ++ ":" ++ snd kv)%string)
                     (lo_items_sorted lo)) in
  (b_open b ++ "-" ++ b_close b ++ "|" ++ lo_sig)%string.

Definition day_sig (s : day_schedule) : string :=
  match s with
  | Closed | Blocks [] => "closed"
  | Blocks bs => join "||" (map block_sig bs)
  end.

(** [by_sig[sig].append(d)] on a dictionary that keeps insertion order. *)
Fixpoint by_sig_append (sig : string) (d : day) (m : list (string * list day))
    : list (string * list day) :=
  match m with
  | [] => [(sig, [d])]
  | (k, v) :: rest =>
      if String.eqb k sig then (k, v ++ [d]) :: rest
      else (k, v) :: by_sig_append sig d rest
  end.

(** [sig_blocks[sig] = blocks] *)
Fixpoint sig_blocks_set (sig : string) (s : day_schedule)
    (m : list (string * day_schedule)) : list (string * day_schedule) :=
  match m with
  | [] => [(sig, s)]
  | (k, v) :: rest =>
      if String.eqb k sig then (k, s) :: rest
      else (k, v) :: sig_blocks_set sig s rest
  end.

(** The two dictionaries after the loop over [DAY_ORDER]. *)
Definition week_groups (w : weekly)
    : list (string * list day) * list (string * day_schedule) :=
  fold_left
    (fun st d =>
       let sig := day_sig (w d) in
       (by_sig_append sig d (fst st), sig_blocks_set sig (w d) (snd st)))
    DAY_ORDER ([], []).

(** One piece of the line; [None] is the [KeyError] of [sig_blocks[sig]]. *)
Definition week_piece (sig_blocks : list (string * day_schedule))
    (g : string * list day) : option string :=
  let '(sig, days) := g in
  let label := group_days days in
  blocks <- assoc sig sig_blocks ;;
  if String.eqb sig "closed" then Some (label ++ " closed")%string
  else Some (label ++ " " ++
             join " · " (map _range_label_for_display (own_blocks blocks)))%string.

Definition week_compact_pretty (w : weekly) : option string :=
  let '(by_sig, sig_blocks) := week_groups w in
  pieces <- map_opt (week_piece sig_blocks) by_sig ;;
  Some (join "; " pieces).

(** *** The next change in one line *)

(** [str(n)] for an integer. *)
Definition str_of_int (n : Z) : string :=
  DecimalString.NilZero.string_of_int (Z.to_int n).

Definition format_next_change (open_now : open_status) : string :=
  match open_now with
  | StatusOpen _ mins lo _ =>
      let parts :=
        match lo with
        | Some l => if (l >? 0)%Z then [("LO in " ++ str_of_int l ++ "m")%string]
                    else []
        | None => []
        end ++
        match mins with
        | Some m => [("Closes in " ++ str_of_int m ++ "m")%string]
        | None => []
        end in
      match parts with
      | [] => "Open"
      | _ => join " · " parts
      end
  | StatusClosedBare | StatusClosed None => "Closed"
  | StatusClosed (Some oi) =>
      if (oi <? 60)%Z then ("Opens in " ++ str_of_int oi ++ "m")%string
      else
        let h := (oi / 60)%Z in
        let m := (oi mod 60)%Z in
        if (m =? 0)%Z then ("Opens in " ++ str_of_int h ++ "h")%string
        else ("Opens in " ++ str_of_int h ++ "h " ++ str_of_int m ++ "m")%string
  end.

(** *** Prices *)



(** [l[-1] if l else None] *)
Definition last_opt {A : Type} (l : list A) : option A := hd_error (rev l).


(** The value [v] that [price_bucket] sorts into a bucket. *)
Definition price_value (lo hi : option Z) : Z :=
  let v := match lo with
           | Some l => l
           | None => 0%Z
           end in
  match hi with
  | Some h =>
      match lo with
      | Some _ => ((v + h) / 2)%Z
      | None => h
      end
  | None => v
  end.

Definition price_bucket (lo hi : option Z) : Z :=
  let v := price_value lo hi in
  if (v =? 0)%Z then 0%Z
  else if (v <=? 999)%Z then 1%Z
  else if (v <=? 1999)%Z then 2%Z
  else if (v <=? 2999)%Z then 3%Z
  else if (v <=? 4999)%Z then 4%Z
  else 5%Z.


(** *** Plain range texts *)

(** A character of a range written plainly: a digit, the colon, the hyphen. *)
Definition plain_char (c : ascii) : bool :=
  PyStr.is_digit c || Ascii.eqb c ":" || Ascii.eqb c "-".

(** One or two digits. *)
Definition hour_form (h : string) : Prop :=
  all_in PyStr.is_digit h = true /\
  (String.length h = 1 \/ String.length h = 2)%nat.

(** Two digits. *)
Definition minute_form (m : string) : Prop :=
  all_in PyStr.is_digit m = true /\ String.length m = 2%nat.

(** Inversion of a [Matches] hypothesis on a pattern whose head is known. *)
Ltac inv_matches :=
  repeat match goal with
         | H : Matches Re.Eps _ _ _ |- _ => inversion H; subst; clear H
         | H : Matches (Re.Chr _) _ _ _ |- _ => inversion H; subst; clear H
         | H : Matches (Re.Cat _ _) _ _ _ |- _ => inversion H; subst; clear H
         | H : Matches (Re.Alt _ _) _ _ _ |- _ => inversion H; subst; clear H
         | H : Matches (Re.Opt _) _ _ _ |- _ => inversion H; subst; clear H
         | H : Matches (Re.Grp _ _) _ _ _ |- _ => inversion H; subst; clear H
         end.

(** * Properties *)

(** ** Strings *)

Section StringFacts.

Local Open Scope string_scope.

Lemma append_nil_r (s : string) : s ++ "" = s.
Proof. induction s as [|c s IH]; simpl; [reflexivity | now rewrite IH]. Qed.

Lemma append_assoc (a b c : string) : (a ++ b) ++ c = a ++ (b ++ c).
Proof. induction a as [|x a IH]; simpl; [reflexivity | now rewrite IH]. Qed.

Lemma length_append (a b : string) :
  String.length (a ++ b) = (String.length a + String.length b)%nat.
Proof. induction a as [|x a IH]; simpl; [reflexivity | now rewrite IH]. Qed.

Lemma substring_prefix (w s : string) :
  substring 0 (String.length w) (w ++ s) = w.
Proof.
  induction w as [|x w IH]; simpl.
  - destruct s; reflexivity.
  - now rewrite IH.
Qed.

Lemma all_in_append cls (a b : string) :
  all_in cls (a ++ b) = all_in cls a && all_in cls b.
Proof.
  induction a as [|x a IH]; simpl; [reflexivity|].
  rewrite IH. now rewrite andb_assoc.
Qed.

End StringFacts.

(** ** The matcher only returns what the pattern can consume *)

Section MatcherSound.

Local Open Scope string_scope.

Lemma rep_sound {A : Type} cls (s : string) :
  forall lo hi pos caps (k : Re.cont A) x,
    Re.rep cls lo hi s pos caps k = Some x ->
    exists w s',
      s = w ++ s' /\ Matches (Re.Rep cls lo hi) w caps caps /\
      k s' (pos + String.length w)%nat caps = Some x.
Proof.
  induction s as [|c s IH]; intros lo hi pos caps k x H; simpl in H.
  - destruct lo; [|discriminate].
    exists "", "". repeat split.
    + constructor; simpl; [reflexivity | lia | intros; lia].
    + simpl. now rewrite Nat.add_0_r.
  - assert (Hstop :
      match lo with O => k (String c s) pos caps | S _ => None end = Some x ->
      exists w s', String c s = w ++ s' /\ Matches (Re.Rep cls lo hi) w caps caps /\
                   k s' (pos + String.length w)%nat caps = Some x).
    { intros Hs. destruct lo; [|discriminate].
      exists "", (String c s). repeat split.
      - constructor; simpl; [reflexivity | lia | intros; lia].
      - simpl. now rewrite Nat.add_0_r. }
    destruct (cls c) eqn:Hc; simpl in H; [|auto].
    destruct hi as [[|h]|]; simpl in H; auto.
    + destruct (Re.rep cls (pred lo) (Some h) s (S pos) caps k) eqn:Hr; auto.
      injection H as ->.
      apply IH in Hr. destruct Hr as (w & s' & -> & Hm & Hk).
      exists (String c w), s'. repeat split.
      * inversion Hm; subst. constructor; simpl.
        -- now rewrite Hc.
        -- lia.
        -- intros h' Hh. injection Hh as <-.
           specialize (H7 h eq_refl). lia.
      * simpl. now rewrite Nat.add_succ_r.
    + destruct (Re.rep cls (pred lo) None s (S pos) caps k) eqn:Hr; auto.
      injection H as ->.
      apply IH in Hr. destruct Hr as (w & s' & -> & Hm & Hk).
      exists (String c w), s'. repeat split.
      * inversion Hm; subst. constructor; simpl.
        -- now rewrite Hc.
        -- lia.
        -- intros h' Hh. discriminate.
      * simpl. now rewrite Nat.add_succ_r.
Qed.

Lemma run_sound {A : Type} (r : Re.regex) :
  forall s pos caps (k : Re.cont A) x,
    Re.run r s pos caps k = Some x ->
    exists w s' caps',
      s = w ++ s' /\ Matches r w caps caps' /\
      k s' (pos + String.length w)%nat caps' = Some x.
Proof.
  induction r as [|cls|cls lo hi|r1 IH1 r2 IH2|r1 IH1 r2 IH2|r1 IH1|g r1 IH1];
    intros s pos caps k x H; simpl in H.
  - exists "", s, caps. repeat split; [constructor|].
    simpl. now rewrite Nat.add_0_r.
  - destruct s as [|c s]; [discriminate|].
    destruct (cls c) eqn:Hc; [|discriminate].
    exists (String c ""), s, caps. repeat split; [now constructor|].
    simpl. now rewrite Nat.add_1_r.
  - apply rep_sound in H. destruct H as (w & s' & -> & Hm & Hk).
    now exists w, s', caps.
  - apply IH1 in H. destruct H as (w1 & s1 & c1 & -> & Hm1 & H).
    apply IH2 in H. destruct H as (w2 & s2 & c2 & -> & Hm2 & H).
    exists (w1 ++ w2), s2, c2. repeat split.
    + now rewrite append_assoc.
    + econstructor; eassumption.
    + now rewrite length_append, Nat.add_assoc.
  - destruct (Re.run r1 s pos caps k) eqn:H1.
    + injection H as ->. apply IH1 in H1.
      destruct H1 as (w & s' & c' & -> & Hm & Hk).
      exists w, s', c'. repeat split; [now apply M_AltL | assumption].
    + apply IH2 in H. destruct H as (w & s' & c' & -> & Hm & Hk).
      exists w, s', c'. repeat split; [now apply M_AltR | assumption].
  - destruct (Re.run r1 s pos caps k) eqn:H1.
    + injection H as ->. apply IH1 in H1.
      destruct H1 as (w & s' & c' & -> & Hm & Hk).
      exists w, s', c'. repeat split; [now apply M_OptSome | assumption].
    + exists "", s, caps. repeat split; [apply M_OptNone|].
      simpl. now rewrite Nat.add_0_r.
  - apply IH1 in H. destruct H as (w & s' & c' & -> & Hm & Hk).
    exists w, s', ((g, w) :: c'). repeat split; [now constructor|].
    replace (pos + String.length w - pos)%nat with (String.length w) in Hk by lia.
    now rewrite substring_prefix in Hk.
Qed.

Lemma match_at_sound r s pos m :
  Re.match_at r s pos = Some m ->
  exists w s',
    s = w ++ s' /\ Matches r w [] (Re.m_groups m) /\
    Re.m_start m = pos /\ Re.m_end m = (pos + String.length w)%nat.
Proof.
  unfold Re.match_at. intros H. apply run_sound in H.
  destruct H as (w & s' & c' & -> & Hm & Hk).
  injection Hk as <-. now exists w, s'.
Qed.

Lemma finditer_from_sound r s :
  forall pos skip m,
    In m (Re.finditer_from r s pos skip) ->
    exists w, Matches r w [] (Re.m_groups m).
Proof.
  induction s as [|c s IH]; intros pos skip m Hin.
  - destruct skip; simpl in Hin; [|contradiction].
    destruct (Re.match_at r "" pos) eqn:Hm; [|contradiction].
    destruct Hin as [<-|[]].
    apply match_at_sound in Hm. destruct Hm as (w & _ & _ & Hm & _).
    now exists w.
  - destruct skip; simpl in Hin.
    + destruct (Re.match_at r (String c s) pos) eqn:Hm.
      * destruct Hin as [<-|Hin]; [|now apply IH in Hin].
        apply match_at_sound in Hm. destruct Hm as (w & _ & _ & Hm & _).
        now exists w.
      * now apply IH in Hin.
    + now apply IH in Hin.
Qed.

Lemma finditer_sound r s m :
  In m (Re.finditer r s) -> exists w, Matches r w [] (Re.m_groups m).
Proof. apply finditer_from_sound. Qed.

End MatcherSound.

(** ** The parser never fails *)

Section ParserTotal.

Local Open Scope string_scope.

Lemma digit_not_colon c : PyStr.is_digit c = true -> Ascii.eqb c ":" = false.
Proof.
  intros Hd. destruct (Ascii.eqb c ":") eqn:E; [|reflexivity].
  apply Ascii.eqb_eq in E. subst c. discriminate Hd.
Qed.

Lemma split_from_digits (h : string) :
  forall rest cur,
    all_in PyStr.is_digit h = true ->
    PyStr.split_from ":" (h ++ rest) cur = PyStr.split_from ":" rest (cur ++ h).
Proof.
  induction h as [|c h IH]; intros rest cur Hd; simpl in *.
  - now rewrite append_nil_r.
  - apply andb_prop in Hd. destruct Hd as [Hc Hh].
    rewrite (digit_not_colon _ Hc), IH by assumption.
    now rewrite append_assoc.
Qed.

Lemma split_time (h m : string) :
  all_in PyStr.is_digit h = true -> all_in PyStr.is_digit m = true ->
  PyStr.split ":" (h ++ String ":" m) = [h; m].
Proof.
  intros Hh Hm. unfold PyStr.split.
  rewrite split_from_digits by assumption. simpl.
  rewrite <- (append_nil_r m) at 1.
  rewrite split_from_digits by assumption. reflexivity.
Qed.

Lemma int_digits_total (h : string) :
  forall acc, all_in PyStr.is_digit h = true ->
    exists z, PyStr.int_digits h acc = Some z.
Proof.
  induction h as [|c h IH]; intros acc Hd; simpl in *.
  - now exists acc.
  - apply andb_prop in Hd. destruct Hd as [Hc Hh]. rewrite Hc. now apply IH.
Qed.

Lemma int_total (h : string) :
  all_in PyStr.is_digit h = true -> h <> "" -> exists z, PyStr.int h = Some z.
Proof.
  intros Hd Hne. destruct h as [|c h]; [congruence|].
  unfold PyStr.int. now apply int_digits_total.
Qed.

Lemma to_minutes_total (t : string) :
  time_form t -> exists z, _to_minutes t = Some z.
Proof.
  intros (h & m & -> & Hh & Hhne & Hm & Hmne).
  unfold _to_minutes. rewrite split_time by assumption.
  destruct (int_total h Hh Hhne) as [zh ->].
  destruct (int_total m Hm Hmne) as [zm ->].
  simpl. eauto.
Qed.

Lemma crosses_midnight_total (s e : string) :
  time_form s -> time_form e -> exists c, _crosses_midnight s e = Some c.
Proof.
  intros Hs He. unfold _crosses_midnight.
  destruct (to_minutes_total e He) as [ze ->].
  destruct (to_minutes_total s Hs) as [zs ->].
  simpl. eauto.
Qed.

End ParserTotal.

Section PatternShapes.

Local Open Scope string_scope.

Lemma length_pos_nonempty (w : string) : (1 <= String.length w)%nat -> w <> "".
Proof. destruct w; simpl; [lia | discriminate]. Qed.

Lemma time_re_form w c c' : Matches TIME_RE w c c' -> time_form w /\ c' = c.
Proof.
  unfold TIME_RE, Re.seq, Re.digits, Re.chr. intros H. inv_matches.
  match goal with
  | H1 : Matches (Re.Rep _ 1 _) ?h _ _, H2 : Matches (Re.Rep _ 2 _) ?m _ _ |- _ =>
      inversion H1; subst; inversion H2; subst; split; [|reflexivity];
      exists h, m
  end.
  match goal with
  | H : Ascii.eqb _ _ = true |- _ => apply Ascii.eqb_eq in H; subst
  end.
  repeat split; auto using length_pos_nonempty.
  apply length_pos_nonempty. lia.
Qed.

Lemma spaces_caps w c c' : Matches Re.spaces w c c' -> c' = c.
Proof. unfold Re.spaces. intros H. now inversion H. Qed.

Lemma dash_caps w c c' : Matches DASH_RE w c c' -> c' = c.
Proof.
  unfold DASH_RE, Re.chr. cbn [Re.lit]. unfold Re.chr.
  intros H. inv_matches; reflexivity.
Qed.

Lemma range_re_groups w caps :
  Matches RANGE_RE w [] caps ->
  exists s e, Re.lookup "s" caps = Some s /\ Re.lookup "e" caps = Some e /\
              time_form s /\ time_form e.
Proof.
  unfold RANGE_RE, Re.seq. intros H. inv_matches.
  repeat match goal with
         | H : Matches TIME_RE _ _ _ |- _ =>
             apply time_re_form in H; destruct H as [? ->]
         | H : Matches Re.spaces _ _ _ |- _ => apply spaces_caps in H; subst
         | H : Matches DASH_RE _ _ _ |- _ => apply dash_caps in H; subst
         end.
  eexists _, _. simpl. repeat split; assumption.
Qed.

Lemma lo_re_groups w caps :
  Matches LO_RE w [] caps -> exists t, Re.lookup "t" caps = Some t.
Proof.
  unfold LO_RE, Re.seq. intros H.
  repeat match goal with
         | H : Matches (Re.Cat _ _) _ _ _ |- _ => inversion H; subst; clear H
         end.
  match goal with
  | H : Matches (Re.Grp "t" _) _ _ _ |- _ => inversion H; subst
  end.
  simpl. eauto.
Qed.

Lemma day_range_re_groups w caps :
  Matches DAY_RANGE_RE w [] caps ->
  exists a b, Re.lookup "1" caps = Some a /\ Re.lookup "2" caps = Some b.
Proof.
  unfold DAY_RANGE_RE, Re.seq, Re.chr. intros H. inv_matches.
  repeat match goal with
         | H : Matches Re.spaces _ _ _ |- _ => apply spaces_caps in H; subst
         | H : Matches (Re.Rep _ _ _) _ _ _ |- _ => inversion H; subst; clear H
         end.
  simpl. eauto.
Qed.

End PatternShapes.

Section Totality.

Lemma map_opt_Forall2 {A B : Type} (f : A -> option B) (l : list A) :
  forall bs, map_opt f l = Some bs -> Forall2 (fun a b => f a = Some b) l bs.
Proof.
  induction l as [|a l IH]; simpl; intros bs H.
  - injection H as <-. constructor.
  - destruct (f a) eqn:Ha; [|discriminate]. simpl in H.
    destruct (map_opt f l) eqn:Hl; [|discriminate]. simpl in H.
    injection H as <-. constructor; auto.
Qed.

Lemma map_opt_total {A B : Type} (f : A -> option B) (P : B -> Prop) (l : list A) :
  (forall a, In a l -> exists b, f a = Some b /\ P b) ->
  exists bs, map_opt f l = Some bs /\ Forall P bs.
Proof.
  induction l as [|a l IH]; simpl; intros H; [eauto|].
  destruct (H a (or_introl eq_refl)) as (b & -> & Hb).
  destruct IH as (bs & -> & Hbs); [auto|]. simpl. eauto.
Qed.

Lemma range_of_match_total text m :
  In m (Re.finditer RANGE_RE text) ->
  exists r, range_of_match m = Some r /\ range_wf r.
Proof.
  intros Hin. apply finditer_sound in Hin. destruct Hin as [w Hm].
  apply range_re_groups in Hm. destruct Hm as (s & e & Hs & He & Fs & Fe).
  unfold range_of_match, Re.group. rewrite Hs, He. simpl.
  eexists. split; [reflexivity|]. simpl. auto.
Qed.

Lemma find_ranges_total text :
  exists ranges, find_ranges text = Some ranges /\ Forall range_wf ranges.
Proof. apply map_opt_total, range_of_match_total. Qed.

Lemma find_los_total text : exists los, find_los text = Some los.
Proof.
  destruct (map_opt_total lo_of_match (fun _ => True) (Re.finditer LO_RE text))
    as (los & H & _); [|eauto].
  intros m Hin. apply finditer_sound in Hin. destruct Hin as [w Hm].
  apply lo_re_groups in Hm. destruct Hm as [t Ht].
  unfold lo_of_match, Re.group. rewrite Ht. simpl. eauto.
Qed.

Lemma build_blocks_total ranges los :
  Forall range_wf ranges -> exists blocks, build_blocks ranges los = Some blocks.
Proof.
  induction 1 as [|[[[rs re_] s] e] rest [Hs He] _ IH]; simpl; [eauto|].
  destruct (crosses_midnight_total s e Hs He) as [c ->].
  destruct IH as [bs ->]. simpl. eauto.
Qed.

Lemma parse_time_ranges_total dtl : exists blocks, parse_time_ranges dtl = Some blocks.
Proof.
  unfold parse_time_ranges.
  destruct (find_ranges_total (_norm dtl)) as (ranges & -> & Hwf).
  destruct (find_los_total (_norm dtl)) as (los & ->). simpl.
  now apply build_blocks_total.
Qed.

Lemma range_days_total s m :
  Re.match_ DAY_RANGE_RE s = Some m -> exists ds, range_days m = Some ds.
Proof.
  intros H. apply match_at_sound in H. destruct H as (w & _ & _ & Hm & _).
  apply day_range_re_groups in Hm. destruct Hm as (a & b & Ha & Hb).
  unfold range_days, Re.group. rewrite Ha, Hb. simpl.
  repeat match goal with
         | |- context [match ?x with _ => _ end] => destruct x
         end; eauto.
Qed.

Lemma chunk_step_total st c : exists st', chunk_step st c = Some st'.
Proof.
  destruct st as [wd sp]. unfold chunk_step.
  destruct (DAY_ALIASES _); [eauto|].
  destruct (SPECIAL_KEYS _); [eauto|].
  destruct (Re.match_ _ _) eqn:Hm; [|eauto].
  destruct (range_days_total _ _ Hm) as [ds ->]. simpl. eauto.
Qed.

Lemma fold_opt_total {S A : Type} (f : S -> A -> option S) (l : list A) :
  (forall st a, exists st', f st a = Some st') ->
  forall st, exists st', fold_opt f l st = Some st'.
Proof.
  intros Hf. induction l as [|a l IH]; simpl; intros st; [eauto|].
  destruct (Hf st a) as [st' ->]. simpl. apply IH.
Qed.

Lemma split_and_normalize_days_total title :
  exists days sp, _split_and_normalize_days title = Some (days, sp).
Proof.
  unfold _split_and_normalize_days.
  destruct (negb _); [eauto|].
  destruct (fold_opt_total chunk_step
              (map PyStr.strip (PyStr.split "," title)) chunk_step_total
              ([], special_empty)) as [[days sp] ->].
  eauto.
Qed.

Lemma entry_step_total st e : exists st', entry_step st e = Some st'.
Proof.
  destruct st as [w ex]. unfold entry_step.
  destruct (split_and_normalize_days_total (entry_title e)) as (days & sp & ->).
  simpl. destruct (explicit_closed _); [eauto|].
  destruct (parse_time_ranges_total (entry_dtl e)) as [blocks ->]. simpl. eauto.
Qed.

Lemma build_schedule_fixed_total hours_raw n :
  exists w ex, build_schedule_fixed hours_raw n = Some (w, ex).
Proof.
  unfold build_schedule_fixed. destruct hours_raw as [|e es]; [eauto|].
  destruct (fold_opt_total entry_step (e :: es) entry_step_total
              (weekly_init, exceptions_init)) as [[w ex] ->].
  simpl. eauto.
Qed.

End Totality.

(** ** Open-now evaluator *)

Section Evaluator.

Local Open Scope Z_scope.

Lemma closes_in_of_spec crosses start end_ now_min :
  closes_in_of crosses start end_ now_min =
  minutes_until_close crosses start end_ now_min.
Proof.
  unfold closes_in_of, minutes_until_close.
  rewrite Z.geb_leb.
  destruct crosses, (start <=? now_min); cbn [negb andb]; lia.
Qed.

Lemma eval_block_outside b now_min :
  window_contains b now_min = Some false -> eval_block b now_min = Some None.
Proof.
  unfold window_contains, eval_block.
  destruct (_to_minutes (b_open b)); [|discriminate]; simpl.
  destruct (_to_minutes (b_close b)); [|discriminate]; simpl.
  intros H. injection H as ->. reflexivity.
Qed.

Lemma eval_block_inside b now_min start end_ :
  _to_minutes (b_open b) = Some start ->
  _to_minutes (b_close b) = Some end_ ->
  in_window_of (crosses_midnight b) start end_ now_min = true ->
  lo_parses b ->
  exists li,
    eval_block b now_min =
    Some (Some (StatusOpen
                  (mkSegment (b_open b) (b_close b) (lo_truthy (last_order b)))
                  (Some (minutes_until_close (crosses_midnight b) start end_ now_min))
                  li (crosses_midnight b))).
Proof.
  intros Hs He Hw Hlo. unfold eval_block, lo_parses in *.
  rewrite Hs, He. simpl. rewrite Hw, closes_in_of_spec.
  destruct (lo_truthy (last_order b)) as [d|]; simpl; [|eauto].
  destruct (lo_times d) as [[|t ts]|]; simpl; [eauto | eauto | congruence].
Qed.

Lemma scan_blocks_skip pre rest now_min :
  Forall (fun b => window_contains b now_min = Some false) pre ->
  scan_blocks (pre ++ rest) now_min = scan_blocks rest now_min.
Proof.
  induction 1 as [|b pre Hb _ IH]; simpl; [reflexivity|].
  now rewrite (eval_block_outside _ _ Hb).
Qed.

Lemma scan_blocks_none bs now_min :
  Forall (fun b => window_contains b now_min = Some false) bs ->
  scan_blocks bs now_min = Some None.
Proof.
  intros H. rewrite <- (app_nil_r bs). now rewrite scan_blocks_skip.
Qed.

Lemma calc_open_now_nonempty bs now :
  bs <> [] ->
  calc_open_now (Blocks bs) now =
  (r <- scan_blocks bs (now_min_of now) ;;
   match r with
   | Some st => Some st
   | None => ff <- first_future bs (now_min_of now) ;; Some (StatusClosed ff)
   end).
Proof. destruct bs; [congruence | reflexivity]. Qed.

Lemma first_future_spec bs now_min :
  Forall (fun b => window_contains b now_min = Some false) bs ->
  first_future bs now_min = Some (hd_error (future_opens bs now_min)).
Proof.
  induction 1 as [|b bs Hb _ IH]; simpl; [reflexivity|].
  unfold window_contains in Hb.
  destruct (_to_minutes (b_open b)) as [st|]; [|discriminate]. simpl.
  destruct (carried_from_prev b); simpl; [assumption|].
  destruct (st >? now_min); simpl; [reflexivity | assumption].
Qed.

Lemma list_min_lower_bound (l : list Z) :
  forall x, Forall (Z.le x) l -> list_min x l = x.
Proof.
  unfold list_min. induction l as [|y l IH]; simpl; intros x H; [reflexivity|].
  inversion H; subst. rewrite Z.min_l by assumption. now apply IH.
Qed.

(** The last-order countdown when the deadline has passed: null in a window
    that does not cross midnight, 0 in the half before midnight of a crossing
    window, and in its half after midnight the distance to a deadline that
    was before midnight. *)
Lemma lo_in_of_passed_plain start end_ now_min lo_t :
  lo_t < now_min -> lo_in_of false start end_ now_min lo_t = None.
Proof.
  intros H. unfold lo_in_of. cbn [negb].
  destruct (now_min <=? lo_t) eqn:E; [apply Z.leb_le in E; lia | reflexivity].
Qed.

Lemma lo_in_of_passed_before_midnight start end_ now_min lo_t :
  start <= lo_t -> lo_t < now_min ->
  lo_in_of true start end_ now_min lo_t = Some 0.
Proof.
  intros H1 H2. unfold lo_in_of. cbn [negb]. rewrite !Z.geb_leb.
  destruct (start <=? now_min) eqn:E1; [|apply Z.leb_gt in E1; lia].
  destruct (start <=? lo_t) eqn:E2; [|apply Z.leb_gt in E2; lia].
  f_equal. lia.
Qed.

Lemma lo_in_of_passed_after_midnight start end_ now_min lo_t :
  now_min < start -> start <= lo_t ->
  lo_in_of true start end_ now_min lo_t = Some (lo_t - now_min).
Proof.
  intros H1 H2. unfold lo_in_of. cbn [negb]. rewrite !Z.geb_leb.
  destruct (start <=? now_min) eqn:E1; [apply Z.leb_le in E1; lia|].
  destruct (now_min <=? lo_t) eqn:E2; [|apply Z.leb_gt in E2; lia].
  f_equal. lia.
Qed.

End Evaluator.

(** C1.  A block 22:00-02:00 that crosses midnight, evaluated alone (with
    well-formed last-order times): at 01:00 the status is open and
    [closes_in_min] is 60; at 23:00 it is open and [closes_in_min] is 180; at
    10:00 the status is closed.  In general the first block whose window
    contains now is returned, and its [closes_in_min] is the minutes from now
    until close, plus 1440 exactly when the window crosses midnight and now is
    at or after open. *)
Theorem calc_open_now_closes_in :
  (forall lo cf,
      let b := mkBlock "22:00" "02:00" true lo cf in
      lo_parses b ->
      (exists st, calc_open_now (Blocks [b]) (mkTime 1 0) = Some st /\
                  is_open st = true /\ closes_in_min st = Some 60%Z) /\
      (exists st, calc_open_now (Blocks [b]) (mkTime 23 0) = Some st /\
                  is_open st = true /\ closes_in_min st = Some 180%Z) /\
      calc_open_now (Blocks [b]) (mkTime 10 0) =
      Some (StatusClosed (if cf then None else Some 720%Z))) /\
  (forall pre b post now start end_,
      Forall (fun b' => window_contains b' (now_min_of now) = Some false) pre ->
      _to_minutes (b_open b) = Some start ->
      _to_minutes (b_close b) = Some end_ ->
      in_window_of (crosses_midnight b) start end_ (now_min_of now) = true ->
      lo_parses b ->
      exists li,
        calc_open_now (Blocks (pre ++ b :: post)) now =
        Some (StatusOpen
                (mkSegment (b_open b) (b_close b) (lo_truthy (last_order b)))
                (Some (minutes_until_close (crosses_midnight b) start end_
                         (now_min_of now)))
                li (crosses_midnight b))).
Proof.
  assert (General : forall pre b post now start end_,
      Forall (fun b' => window_contains b' (now_min_of now) = Some false) pre ->
      _to_minutes (b_open b) = Some start ->
      _to_minutes (b_close b) = Some end_ ->
      in_window_of (crosses_midnight b) start end_ (now_min_of now) = true ->
      lo_parses b ->
      exists li,
        calc_open_now (Blocks (pre ++ b :: post)) now =
        Some (StatusOpen
                (mkSegment (b_open b) (b_close b) (lo_truthy (last_order b)))
                (Some (minutes_until_close (crosses_midnight b) start end_
                         (now_min_of now)))
                li (crosses_midnight b))).
  { intros pre b post now start end_ Hpre Hs He Hw Hlo.
    rewrite calc_open_now_nonempty by (destruct pre; discriminate).
    rewrite scan_blocks_skip by assumption. simpl.
    destruct (eval_block_inside b _ start end_ Hs He Hw Hlo) as [li ->].
    simpl. eauto. }
  split; [|exact General].
  intros lo cf b Hlo. repeat split.
  - destruct (General [] b [] (mkTime 1 0) 1320%Z 120%Z) as [li Hli];
      auto; try reflexivity.
    eexists. split; [exact Hli|]. split; reflexivity.
  - destruct (General [] b [] (mkTime 23 0) 1320%Z 120%Z) as [li Hli];
      auto; try reflexivity.
    eexists. split; [exact Hli|]. split; reflexivity.
  - subst b. destruct cf; reflexivity.
Qed.

Lemma calc_open_now_closes_in_witness :
  let b := mkBlock "22:00" "02:00" true (Some (mkLo (Some "01:30") None None)) false in
  (exists st, calc_open_now (Blocks [b]) (mkTime 1 0) = Some st /\
              is_open st = true /\ closes_in_min st = Some 60%Z) /\
  exists li,
    calc_open_now (Blocks ([plain_block "11:00" "14:00" false] ++ b :: []))
      (mkTime 23 0) =
    Some (StatusOpen
            (mkSegment "22:00" "02:00" (Some (mkLo (Some "01:30") None None)))
            (Some 180%Z) li true).
Proof.
  intros b. split.
  - apply (proj1 calc_open_now_closes_in (last_order b) false).
    simpl. discriminate.
  - apply (proj2 calc_open_now_closes_in [plain_block "11:00" "14:00" false] b []
             (mkTime 23 0) 1320%Z 120%Z).
    + repeat constructor.
    + reflexivity.
    + reflexivity.
    + reflexivity.
    + simpl. discriminate.
Defined.

(** C2, the claim as stated fails: with the blocks 17:00-20:00 and
    11:00-14:00 in this order and now = 10:00, no window contains now, the
    minimum of [open - now] is 60, and the evaluator answers 420. *)
Lemma opens_in_min_not_minimum :
  let bs := [plain_block "17:00" "20:00" false; plain_block "11:00" "14:00" false] in
  let now := mkTime 10 0 in
  bs <> [] /\
  Forall (fun b => window_contains b (now_min_of now) = Some false) bs /\
  spec_opens_in_min bs (now_min_of now) = Some 60%Z /\
  calc_open_now (Blocks bs) now = Some (StatusClosed (Some 420%Z)) /\
  calc_open_now (Blocks bs) now <>
  Some (StatusClosed (spec_opens_in_min bs (now_min_of now))).
Proof.
  intros bs now. split; [discriminate|]. split; [repeat constructor|].
  split; [reflexivity|]. split; [reflexivity|].
  vm_compute. discriminate.
Qed.

(** C2, amended.  For a non-empty list of blocks none of whose windows
    contains now, the status is closed and [opens_in_min] is [open - now] of
    the first block, in list order, that is not carried from the previous day
    and opens strictly after now (null when there is none).  It is the minimum
    when these blocks come in ascending order of open. *)
Theorem calc_open_now_first_future bs now :
  bs <> [] ->
  Forall (fun b => window_contains b (now_min_of now) = Some false) bs ->
  calc_open_now (Blocks bs) now =
  Some (StatusClosed (hd_error (future_opens bs (now_min_of now)))) /\
  (StronglySorted Z.le (future_opens bs (now_min_of now)) ->
   hd_error (future_opens bs (now_min_of now)) =
   spec_opens_in_min bs (now_min_of now)).
Proof.
  intros Hne Hout. split.
  - rewrite calc_open_now_nonempty by assumption.
    rewrite scan_blocks_none by assumption. simpl.
    now rewrite first_future_spec.
  - unfold spec_opens_in_min. intros Hs.
    destruct (future_opens bs (now_min_of now)) as [|x rest]; [reflexivity|].
    simpl. f_equal. symmetry. apply list_min_lower_bound.
    now inversion Hs.
Qed.

Lemma calc_open_now_first_future_witness :
  let bs := [plain_block "11:00" "14:00" false; plain_block "17:00" "20:00" false;
             mkBlock "22:00" "02:00" true None true] in
  calc_open_now (Blocks bs) (mkTime 15 30) = Some (StatusClosed (Some 90%Z)) /\
  Some 90%Z = spec_opens_in_min bs 930%Z.
Proof.
  intros bs.
  assert (Hne : bs <> []) by discriminate.
  assert (Hout : Forall (fun b => window_contains b (now_min_of (mkTime 15 30))
                                  = Some false) bs) by (repeat constructor).
  split.
  - exact (proj1 (calc_open_now_first_future bs (mkTime 15 30) Hne Hout)).
  - apply (proj2 (calc_open_now_first_future bs (mkTime 15 30) Hne Hout)).
    repeat constructor.
Defined.

(** C3, the code at the failing inputs.  A block 22:00-02:00 with last order
    22:30, at 23:00: the deadline has passed and [lo_in_min] is 0, not null.
    The same block with last order 23:30, at 01:00: the deadline has passed
    and [lo_in_min] is 1350. *)
Theorem lo_in_min_after_deadline :
  calc_open_now
    (Blocks [mkBlock "22:00" "02:00" true (Some (mkLo (Some "22:30") None None)) false])
    (mkTime 23 0) =
  Some (StatusOpen (mkSegment "22:00" "02:00" (Some (mkLo (Some "22:30") None None)))
          (Some 180%Z) (Some 0%Z) true) /\
  calc_open_now
    (Blocks [mkBlock "22:00" "02:00" true (Some (mkLo (Some "23:30") None None)) false])
    (mkTime 1 0) =
  Some (StatusOpen (mkSegment "22:00" "02:00" (Some (mkLo (Some "23:30") None None)))
          (Some 60%Z) (Some 1350%Z) true).
Proof. split; reflexivity. Qed.

(** ** Time ranges *)

(** C5, the claim as stated fails: "17:00-26:00" is matched by [RANGE_RE]
    and yields a block. *)
Lemma hour_26_is_accepted :
  Re.search RANGE_RE "17:00-26:00" <> None /\
  parse_time_ranges "17:00-26:00" <> Some [].
Proof. split; vm_compute; discriminate. Qed.

(** C5, amended.  The extractor does not check hours: "17:00-26:00" yields
    one block, open 17:00, close 26:00, whose close is 1560 minutes and which
    does not cross midnight.  "17:00-24:00" yields one block whose close is
    normalized to 0 minutes and which crosses midnight, as 0 <= 1020. *)
Theorem range_hours_unchecked :
  parse_time_ranges "17:00-26:00" = Some [plain_block "17:00" "26:00" false] /\
  _to_minutes "26:00" = Some 1560%Z /\
  parse_time_ranges "17:00-24:00" = Some [plain_block "17:00" "24:00" true] /\
  _to_minutes "24:00" = Some 0%Z /\
  _to_minutes "17:00" = Some 1020%Z /\
  _crosses_midnight "17:00" "24:00" = Some (0 <=? 1020)%Z.
Proof. repeat split; vm_compute; reflexivity. Qed.

Section LastOrderWindows.

Lemma lo_assign_field k lo q t :
  lo_field k (lo_assign lo q t) =
  if lo_kind_eqb (kind_of q) k then Some t else lo_field k lo.
Proof.
  unfold lo_assign, kind_of.
  destruct q as [[|c q]|]; try (destruct k; reflexivity).
  destruct (PyStr.contains "drink" (String c q)); destruct k; reflexivity.
Qed.

Lemma last_time_snoc l mk : last_time (l ++ [mk]) = Some (marker_time mk).
Proof. unfold last_time. now rewrite rev_app_distr. Qed.

Lemma collect_lo_field k rs next los :
  lo_field k (collect_lo rs next los) =
  last_time (of_kind k (markers_in_window rs next los)).
Proof.
  unfold collect_lo, markers_in_window, of_kind.
  induction los as [|[[pos q] t] los IH] using rev_ind; [now destruct k|].
  rewrite fold_left_app, !filter_app. simpl.
  unfold marker_pos at 2. simpl.
  destruct (in_lo_window rs next pos); simpl.
  - rewrite lo_assign_field. unfold marker_kind at 2. simpl.
    destruct (lo_kind_eqb (kind_of q) k).
    + now rewrite last_time_snoc.
    + now rewrite !app_nil_r.
  - now rewrite !app_nil_r.
Qed.

Lemma lo_is_empty_fields d :
  lo_is_empty d = true <-> forall k, lo_field k d = None.
Proof.
  split.
  - destruct d as [[g|] [f|] [dr|]]; simpl; try discriminate.
    intros _ k. now destruct k.
  - intros H. pose proof (H Generic). pose proof (H Food). pose proof (H Drinks).
    destruct d; simpl in *. now subst.
Qed.

Lemma last_time_none l : last_time l = None <-> l = [].
Proof.
  unfold last_time. split.
  - intros H. destruct (rev l) eqn:E; [|discriminate].
    rewrite <- (rev_involutive l), E. reflexivity.
  - now intros ->.
Qed.

Lemma of_kind_all_empty l : (forall k, of_kind k l = []) <-> l = [].
Proof.
  split; [|now intros ->].
  intros H. destruct l as [|mk l]; [reflexivity|].
  specialize (H (marker_kind mk)). unfold of_kind in H. simpl in H.
  destruct (marker_kind mk); discriminate.
Qed.

Lemma collect_lo_empty rs next los :
  lo_is_empty (collect_lo rs next los) = true <->
  markers_in_window rs next los = [].
Proof.
  rewrite lo_is_empty_fields, <- of_kind_all_empty.
  split; intros H k; specialize (H k).
  - rewrite collect_lo_field in H. now apply last_time_none.
  - rewrite collect_lo_field. now apply last_time_none.
Qed.

Lemma next_start_head r rest :
  next_start (r :: rest) 0 = option_map range_start (hd_error rest).
Proof. now destruct rest. Qed.

Lemma build_blocks_nth los ranges :
  forall blocks,
    build_blocks ranges los = Some blocks ->
    List.length blocks = List.length ranges /\
    forall i rs re_ s e,
      nth_error ranges i = Some (rs, re_, s, e) ->
      exists b,
        nth_error blocks i = Some b /\ b_open b = s /\ b_close b = e /\
        _crosses_midnight s e = Some (crosses_midnight b) /\
        carried_from_prev b = false /\
        let lo := collect_lo rs (next_start ranges i) los in
        last_order b = if lo_is_empty lo then None else Some lo.
Proof.
  induction ranges as [|[[[rs0 re0] s0] e0] rest IH]; simpl; intros blocks H.
  - injection H as <-. split; [reflexivity|]. intros [|i]; discriminate.
  - destruct (_crosses_midnight s0 e0) as [c|] eqn:Hc; [|discriminate]. simpl in H.
    destruct (build_blocks rest los) as [bs|]; [|discriminate]. simpl in H.
    injection H as <-. destruct (IH bs eq_refl) as [Hlen Hnth].
    split; [simpl; now rewrite Hlen|].
    intros [|i] rs re_ s e Hi.
    + injection Hi as <- <- <- <-. eexists. split; [reflexivity|].
      simpl. rewrite next_start_head. auto.
    + apply Hnth in Hi. exact Hi.
Qed.

End LastOrderWindows.

(** C6.  Every range of a detail string yields one block, in text order, and
    the last-order markers of the block are those whose position lies from
    the start of its range up to, not including, the start of the next range:
    for each kind the block holds the time of the last such marker of that
    kind (so the same kind is last-write-wins and different kinds coexist),
    and [last_order] is null exactly when the window holds no marker.  The
    detail "11:30-14:00 (LO 13:30) 17:30-22:00 (LO Food 21:00 / LO Drink
    21:30)" yields two blocks, the first with generic 13:30, the second with
    food 21:00 and drinks 21:30. *)
Theorem last_order_windowing :
  (forall dtl,
      exists ranges los blocks,
        find_ranges (_norm dtl) = Some ranges /\
        find_los (_norm dtl) = Some los /\
        parse_time_ranges dtl = Some blocks /\
        List.length blocks = List.length ranges /\
        forall i rs re_ s e,
          nth_error ranges i = Some (rs, re_, s, e) ->
          exists b,
            nth_error blocks i = Some b /\ b_open b = s /\ b_close b = e /\
            (forall k,
                lo_get k (last_order b) =
                last_time
                  (of_kind k (markers_in_window rs (next_start ranges i) los))) /\
            (last_order b = None <->
             markers_in_window rs (next_start ranges i) los = [])) /\
  parse_time_ranges
    "11:30-14:00 (LO 13:30) 17:30-22:00 (LO Food 21:00 / LO Drink 21:30)" =
  Some [mkBlock "11:30" "14:00" false (Some (mkLo (Some "13:30") None None)) false;
        mkBlock "17:30" "22:00" false
          (Some (mkLo None (Some "21:00") (Some "21:30"))) false].
Proof.
  split; [|vm_compute; reflexivity].
  intros dtl.
  destruct (find_ranges_total (_norm dtl)) as (ranges & Hr & Hwf).
  destruct (find_los_total (_norm dtl)) as (los & Hl).
  destruct (build_blocks_total ranges los Hwf) as (blocks & Hb).
  exists ranges, los, blocks. repeat split; try assumption.
  - unfold parse_time_ranges. rewrite Hr, Hl. exact Hb.
  - now apply (build_blocks_nth los ranges blocks).
  - intros i rs re_ s e Hi.
    destruct (proj2 (build_blocks_nth los ranges blocks Hb) i rs re_ s e Hi)
      as (b & Hn & Ho & Hc & _ & _ & Hlo).
    exists b. repeat split; try assumption.
    + intros k. simpl in Hlo. rewrite Hlo.
      destruct (lo_is_empty _) eqn:E; simpl.
      * rewrite <- collect_lo_field.
        symmetry. now apply lo_is_empty_fields.
      * apply collect_lo_field.
    + simpl in Hlo. rewrite Hlo. intros H.
      apply collect_lo_empty. destruct (lo_is_empty _); [reflexivity|discriminate].
    + simpl in Hlo. rewrite Hlo. intros H.
      apply collect_lo_empty in H. now rewrite H.
Qed.

(** ** Day titles *)

Section DayRanges.

Lemma assoc_In {V : Type} key (table : list (string * V)) v :
  assoc key table = Some v -> In (key, v) table.
Proof.
  induction table as [|[k x] rest IH]; simpl; [discriminate|].
  destruct (String.eqb key k) eqn:E.
  - apply String.eqb_eq in E. intros H. injection H as ->. subst. now left.
  - intros H. right. now apply IH.
Qed.

Lemma cyclic_range_length a b :
  List.length (cyclic_range a b) = cyclic_distance a b + 1.
Proof. unfold cyclic_range. now rewrite length_map, length_seq. Qed.

Lemma cyclic_range_NoDup a b : NoDup (cyclic_range a b).
Proof.
  destruct a, b; vm_compute;
    repeat (constructor; [simpl; intuition discriminate|]); constructor.
Qed.

Lemma chunk_step_range c t1 sep t2 d1 d2 wd sp :
  In (t1, d1) DAY_ALIASES_table ->
  In (t2, d2) DAY_ALIASES_table ->
  In sep range_separators ->
  PyStr.lower c = (t1 ++ sep ++ t2)%string ->
  chunk_step (wd, sp) c = Some (wd ++ cyclic_range d1 d2, sp).
Proof.
  intros H1 H2 Hs Hlow. unfold chunk_step. cbv zeta. rewrite Hlow. clear Hlow.
  unfold DAY_ALIASES_table in H1, H2. unfold range_separators in Hs.
  simpl in H1, H2, Hs.
  repeat match goal with
         | H : _ \/ _ |- _ => destruct H
         | H : False |- _ => destruct H
         | H : (_, _) = (_, _) |- _ => injection H as <- <-
         | H : _ = sep |- _ => subst sep
         end; vm_compute; reflexivity.
Qed.

End DayRanges.

(** C7.  A title chunk that reads, in any letter case, as a day name or
    abbreviation, one of the separators (hyphen, en dash, em dash or the word
    "to"), and a day name or abbreviation adds to the weekdays the days from
    the first to the second along the cyclic order mon..sun, both included and
    wrapping after sun; these are distinct and their number is the cyclic
    distance plus one. *)
Theorem day_range_expansion c t1 sep t2 d1 d2 wd sp :
  DAY_ALIASES t1 = Some d1 ->
  DAY_ALIASES t2 = Some d2 ->
  In sep range_separators ->
  PyStr.lower c = (t1 ++ sep ++ t2)%string ->
  chunk_step (wd, sp) c = Some (wd ++ cyclic_range d1 d2, sp) /\
  NoDup (cyclic_range d1 d2) /\
  List.length (cyclic_range d1 d2) = cyclic_distance d1 d2 + 1.
Proof.
  intros H1 H2 Hs Hlow. split; [|split].
  - apply (chunk_step_range c t1 sep t2); auto using assoc_In.
  - apply cyclic_range_NoDup.
  - apply cyclic_range_length.
Qed.

Lemma day_range_expansion_witness :
  _split_and_normalize_days "Sat-Mon" = Some ([sat; sun; mon], special_empty) /\
  List.length [sat; sun; mon] = 3.
Proof.
  destruct (day_range_expansion "Sat-Mon" "sat" "-" "mon" sat mon [] special_empty)
    as (Hstep & _ & Hlen).
  - reflexivity.
  - reflexivity.
  - simpl. auto.
  - reflexivity.
  - split.
    + change (_split_and_normalize_days "Sat-Mon")
        with (st <- chunk_step ([], special_empty) "Sat-Mon" ;; Some st).
      rewrite Hstep. reflexivity.
    + exact Hlen.
Defined.

(** C9, the code at the failing inputs.  The chunk "Lunch-Dinner" has the
    shape of a range but its ends are no days: it adds no weekday and is not
    recorded among the opaque titles, where the chunk "Lunch only" is.  The
    chunk "Monthly-Fri", whose first end is no day name, adds mon..fri. *)
Theorem range_like_chunk_is_dropped :
  _split_and_normalize_days "Lunch-Dinner" = Some ([], special_empty) /\
  _split_and_normalize_days "Lunch only" =
  Some ([], mkSpecial false false false (Some ["Lunch only"])) /\
  _split_and_normalize_days "Monthly-Fri" =
  Some ([mon; tue; wed; thu; fri], special_empty).
Proof. repeat split; vm_compute; reflexivity. Qed.

(** ** Schedule builder *)

Section Builder.

Lemma day_eqb_eq a b : day_eqb a b = true -> a = b.
Proof. destruct a, b; simpl; congruence. Qed.

Lemma close_days_closed days :
  forall w d, w d = Closed -> close_days w days d = Closed.
Proof.
  unfold close_days. induction days as [|d' days IH]; simpl; intros w d H; [assumption|].
  apply IH. unfold weekly_set. now destruct (day_eqb d d').
Qed.

Lemma extend_days_closed blocks days :
  forall w d, w d = Closed -> extend_days w days blocks d = Closed.
Proof.
  unfold extend_days. induction days as [|d' days IH]; simpl; intros w d H; [assumption|].
  apply IH. destruct (w d') eqn:E; [assumption|].
  unfold weekly_set. destruct (day_eqb d d') eqn:Ed; [|assumption].
  apply day_eqb_eq in Ed. congruence.
Qed.

Lemma entry_step_closed w ex e w' ex' d :
  entry_step (w, ex) e = Some (w', ex') -> w d = Closed -> w' d = Closed.
Proof.
  unfold entry_step. intros H Hd.
  destruct (_split_and_normalize_days (entry_title e)) as [[days sp]|];
    [|discriminate]; simpl in H.
  destruct (explicit_closed (entry_dtl e)).
  - injection H as <- _. now apply close_days_closed.
  - destruct (parse_time_ranges (entry_dtl e)) as [blocks|]; [|discriminate].
    simpl in H. injection H as <- _. now apply extend_days_closed.
Qed.

Lemma fold_entries_closed es :
  forall w ex w' ex' d,
    fold_opt entry_step es (w, ex) = Some (w', ex') -> w d = Closed -> w' d = Closed.
Proof.
  induction es as [|e es IH]; cbn [fold_opt]; intros w ex w' ex' d H Hd.
  - injection H as <- _. assumption.
  - destruct (entry_step (w, ex) e) as [[w1 ex1]|] eqn:E; unfold bind in H;
      [|discriminate].
    eapply IH; [eassumption|]. eapply entry_step_closed; eassumption.
Qed.

Lemma fold_opt_app {S A : Type} (f : S -> A -> option S) l1 l2 :
  forall st,
    fold_opt f (l1 ++ l2) st = (st' <- fold_opt f l1 st ;; fold_opt f l2 st').
Proof.
  induction l1 as [|a l1 IH]; simpl; intros st; [reflexivity|].
  destruct (f st a); simpl; [apply IH | reflexivity].
Qed.

(** How the builder ends: the fold over the entries, then [closed_on]. *)
Lemma build_schedule_fixed_fold es n w ex :
  es <> [] ->
  fold_opt entry_step es (weekly_init, exceptions_init) = Some (w, ex) ->
  build_schedule_fixed es n =
  Some (w, match closed_on_policy n with
           | [] => ex
           | ps => add_policies ps ex
           end).
Proof.
  intros Hne H. unfold build_schedule_fixed. destruct es; [congruence|].
  rewrite H. simpl. unfold closed_on_policy.
  destruct n as [[co|]|]; try reflexivity.
  destruct (PyStr.truthy co); reflexivity.
Qed.

Lemma build_schedule_fixed_inv es n w ex :
  build_schedule_fixed es n = Some (w, ex) ->
  es <> [] ->
  exists ex0, fold_opt entry_step es (weekly_init, exceptions_init) = Some (w, ex0).
Proof.
  intros H Hne.
  destruct (fold_opt_total entry_step es entry_step_total
              (weekly_init, exceptions_init)) as [[w0 ex0] H0].
  rewrite (build_schedule_fixed_fold es n w0 ex0 Hne H0) in H.
  injection H as <- _. eauto.
Qed.

Lemma close_days_spec days :
  forall w d,
    close_days w days d = if existsb (day_eqb d) days then Closed else w d.
Proof.
  unfold close_days. induction days as [|d' days IH]; simpl; intros w d; [reflexivity|].
  rewrite IH. unfold weekly_set.
  destruct (day_eqb d d'); simpl; [|reflexivity].
  now destruct (existsb (day_eqb d) days).
Qed.

(** An explicit-closed entry closes the days of its title and changes
    nothing else. *)
Lemma entry_step_explicit_closed w ex e days sp :
  explicit_closed (entry_dtl e) = true ->
  _split_and_normalize_days (entry_title e) = Some (days, sp) ->
  entry_step (w, ex) e = Some (close_days w days, ex) /\
  forall d, close_days w days d =
            if existsb (day_eqb d) days then Closed else w d.
Proof.
  intros Hc Hs. split; [|apply close_days_spec].
  unfold entry_step. rewrite Hs. cbv beta iota delta [bind]. now rewrite Hc.
Qed.

End Builder.

(** C4.  Closed is absorbing: when the builder, run on a list of entries,
    leaves a weekday closed, then run on that list followed by any further
    entries it leaves the weekday closed.  For the entries ("Mon", "Closed"),
    ("Mon", "11:00-14:00") the schedule of Mon is closed. *)
Theorem closed_is_absorbing :
  (forall es1 es2 n1 n2 w1 ex1 d,
      build_schedule_fixed es1 n1 = Some (w1, ex1) ->
      w1 d = Closed ->
      exists w2 ex2,
        build_schedule_fixed (es1 ++ es2) n2 = Some (w2, ex2) /\ w2 d = Closed) /\
  option_map (fun r => fst r mon)
    (build_schedule_fixed
       [raw_entry "Mon" "Closed"; raw_entry "Mon" "11:00-14:00"] None) =
  Some Closed.
Proof.
  split; [|vm_compute; reflexivity].
  intros es1 es2 n1 n2 w1 ex1 d H1 Hd.
  assert (Hne : es1 <> []).
  { intros ->. unfold build_schedule_fixed in H1. injection H1 as <- _.
    discriminate Hd. }
  destruct (build_schedule_fixed_inv _ _ _ _ H1 Hne) as [ex0 H0].
  destruct (fold_opt_total entry_step es2 entry_step_total (w1, ex0))
    as [[w2 ex2] H2].
  assert (H12 : fold_opt entry_step (es1 ++ es2) (weekly_init, exceptions_init)
                = Some (w2, ex2)).
  { rewrite fold_opt_app, H0. exact H2. }
  eexists w2, _. split.
  - apply build_schedule_fixed_fold; [|exact H12].
    destruct es1; [congruence | discriminate].
  - exact (fold_entries_closed es2 w1 ex0 w2 ex2 d H2 Hd).
Qed.

Lemma closed_is_absorbing_witness :
  exists w2 ex2,
    build_schedule_fixed
      ([raw_entry "Mon, Tue" "Closed"] ++ [raw_entry "Mon-Fri" "11:00-14:00"])
      None = Some (w2, ex2) /\
    w2 tue = Closed.
Proof.
  apply (proj1 closed_is_absorbing [raw_entry "Mon, Tue" "Closed"]
           [raw_entry "Mon-Fri" "11:00-14:00"] None None
           (close_days weekly_init [mon; tue]) exceptions_init tue).
  - vm_compute. reflexivity.
  - reflexivity.
Defined.

(** C8, the code at the failing inputs.  The details below contain "closed"
    and a range that the extractor parses once it has normalized "to" or the
    em dash to a hyphen; the explicit-closed test looks for a range in the
    text before normalization, finds none, and closes the day. *)
Theorem explicit_closed_skips_normalization :
  let dtl1 := "11:00 to 14:00 (Closed on holidays)" in
  let dtl2 := "Closed on holidays, else 17:00—23:00" in
  explicit_closed dtl1 = true /\
  parse_time_ranges dtl1 = Some [plain_block "11:00" "14:00" false] /\
  option_map (fun r => fst r mon)
    (build_schedule_fixed [raw_entry "Mon" dtl1] None) = Some Closed /\
  explicit_closed dtl2 = true /\
  parse_time_ranges dtl2 = Some [plain_block "17:00" "23:00" false] /\
  explicit_closed "11:00-14:00 (Closed on holidays)" = false.
Proof. repeat split; vm_compute; reflexivity. Qed.

Section Policies.

Lemma entry_step_policies w ex e w' ex' :
  entry_step (w, ex) e = Some (w', ex') ->
  policies ex' = policies ex ++ entry_policies e.
Proof.
  unfold entry_step, entry_policies. intros H.
  destruct (_split_and_normalize_days (entry_title e)) as [[days sp]|];
    [|discriminate]; cbv beta iota delta [bind] in H.
  destruct (explicit_closed (entry_dtl e)).
  - injection H as _ <-. now rewrite app_nil_r.
  - destruct (parse_time_ranges (entry_dtl e)) as [blocks|]; [|discriminate].
    injection H as _ <-.
    destruct (sp_day_after sp), (sp_day_before sp), (sp_public_holiday sp),
      (raw_titles sp); simpl; rewrite ?app_nil_r; reflexivity.
Qed.

Lemma fold_entries_policies es :
  forall w ex w' ex',
    fold_opt entry_step es (w, ex) = Some (w', ex') ->
    policies ex' = policies ex ++ flat_map entry_policies es.
Proof.
  induction es as [|e es IH]; cbn [fold_opt flat_map]; intros w ex w' ex' H.
  - injection H as _ <-. now rewrite app_nil_r.
  - destruct (entry_step (w, ex) e) as [[w1 ex1]|] eqn:E; unfold bind in H;
      [|discriminate].
    rewrite (IH _ _ _ _ H), (entry_step_policies _ _ _ _ _ E).
    now rewrite app_assoc.
Qed.

Lemma str_mem_In x l : str_mem x l = true <-> In x l.
Proof.
  unfold str_mem. rewrite existsb_exists. split.
  - intros (y & Hy & E). apply String.eqb_eq in E. now subst.
  - intros H. exists x. split; [assumption | apply String.eqb_refl].
Qed.

Lemma set_add_NoDup x l : NoDup l -> NoDup (set_add x l).
Proof.
  intros H. unfold set_add. destruct (str_mem x l) eqn:E; [assumption|].
  apply NoDup_app; [assumption | repeat constructor; auto |].
  intros y Hy [<-|[]]. apply str_mem_In in Hy. congruence.
Qed.

Lemma chunk_step_distinct wd sp c wd' sp' :
  chunk_step (wd, sp) c = Some (wd', sp') ->
  raw_titles_distinct sp -> raw_titles_distinct sp'.
Proof.
  unfold chunk_step. intros H Hd.
  destruct (DAY_ALIASES _); [injection H as _ <-; assumption|].
  destruct (SPECIAL_KEYS _) as [tag|];
    [injection H as _ <-; now destruct tag|].
  destruct (Re.match_ _ _).
  - destruct (range_days _); [|discriminate]. simpl in H.
    injection H as _ <-. assumption.
  - injection H as _ <-. unfold raw_titles_distinct in *. simpl.
    apply set_add_NoDup. destruct (raw_titles sp); [assumption | constructor].
Qed.

Lemma fold_chunks_distinct chunks :
  forall wd sp wd' sp',
    fold_opt chunk_step chunks (wd, sp) = Some (wd', sp') ->
    raw_titles_distinct sp -> raw_titles_distinct sp'.
Proof.
  induction chunks as [|c chunks IH]; cbn [fold_opt]; intros wd sp wd' sp' H Hd.
  - injection H as _ <-. assumption.
  - destruct (chunk_step (wd, sp) c) as [[wd1 sp1]|] eqn:E; unfold bind in H;
      [|discriminate].
    eapply IH; [eassumption|]. eapply chunk_step_distinct; eassumption.
Qed.

Lemma split_and_normalize_days_distinct title days sp :
  _split_and_normalize_days title = Some (days, sp) -> raw_titles_distinct sp.
Proof.
  unfold _split_and_normalize_days. destruct (negb _).
  - intros H. injection H as _ <-. exact I.
  - intros H. eapply fold_chunks_distinct; [eassumption | exact I].
Qed.

Lemma insert_sorted_perm x l : Permutation (insert_sorted x l) (x :: l).
Proof.
  induction l as [|y l IH]; simpl; [reflexivity|].
  destruct (String.leb x y); [reflexivity|].
  rewrite IH. apply perm_swap.
Qed.

Lemma sorted_perm l : Permutation (sorted l) l.
Proof.
  induction l as [|x l IH]; simpl; [constructor|].
  rewrite insert_sorted_perm. now constructor.
Qed.

Lemma entry_policies_NoDup e : NoDup (entry_policies e).
Proof.
  unfold entry_policies. destruct (explicit_closed _); [constructor|].
  destruct (_split_and_normalize_days (entry_title e)) as [[days sp]|] eqn:E;
    [|constructor].
  apply split_and_normalize_days_distinct in E. unfold raw_titles_distinct in E.
  destruct (raw_titles sp); [|constructor].
  eapply Permutation_NoDup; [symmetry; apply sorted_perm | assumption].
Qed.

End Policies.

(** C10, the claim as stated fails: two entries with the opaque title
    "Irregular" put it twice into the policies. *)
Lemma policies_repeat_across_entries :
  option_map (fun r => policies (snd r))
    (build_schedule_fixed
       [raw_entry "Irregular" "11:00-14:00"; raw_entry "Irregular" "17:00-20:00"]
       None) = Some ["Irregular"; "Irregular"] /\
  ~ NoDup ["Irregular"; "Irregular"].
Proof.
  split; [vm_compute; reflexivity|].
  intros H. inversion H as [|x l Hin _]; subst. apply Hin. now left.
Qed.

(** C10, amended.  The policies are the concatenation, in entry order, of
    what each entry adds (followed by [closed_on] when there is one): an
    entry that is not explicit-closed adds its opaque titles, sorted and
    without repetition within the entry.  Nothing removes a title that
    several entries add. *)
Theorem policies_concatenate_per_entry es n :
  exists w ex,
    build_schedule_fixed es n = Some (w, ex) /\
    policies ex =
    flat_map entry_policies es ++
    match es with
    | [] => []
    | _ => closed_on_policy n
    end /\
    Forall (fun e => NoDup (entry_policies e)) es.
Proof.
  destruct es as [|e es].
  - exists weekly_init, exceptions_init. repeat split. constructor.
  - destruct (fold_opt_total entry_step (e :: es) entry_step_total
                (weekly_init, exceptions_init)) as [[w ex] H].
    eexists w, _. split; [|split].
    + apply build_schedule_fixed_fold; [discriminate | exact H].
    + apply fold_entries_policies in H. simpl in H.
      destruct (closed_on_policy n) eqn:En.
      * rewrite H. now rewrite app_nil_r.
      * simpl. rewrite H. reflexivity.
    + apply Forall_forall. intros x _. apply entry_policies_NoDup.
Qed.

(** * Further properties *)

(** ** What the parser hands on is well formed *)

Section WellFormed.










End WellFormed.

Section ScheduleInvariant.




(** One step of the builder, without the simplification [injection] does. *)
Lemma entry_step_cases w ex e w' ex' :
  entry_step (w, ex) e = Some (w', ex') ->
  exists days sp,
    _split_and_normalize_days (entry_title e) = Some (days, sp) /\
    ((explicit_closed (entry_dtl e) = true /\
      w' = close_days w days /\ ex' = ex) \/
     (explicit_closed (entry_dtl e) = false /\
      exists blocks,
        parse_time_ranges (entry_dtl e) = Some blocks /\
        w' = extend_days w days blocks /\
        ex' = fold_left
                (fun ex sk => if sp_has sk sp then ex_extend sk blocks ex else ex)
                SPECIAL_KEYS_values
                match raw_titles sp with
                | Some rt => add_policies (sorted rt) ex
                | None => ex
                end)).
Proof.
  unfold entry_step. intros H.
  destruct (_split_and_normalize_days (entry_title e)) as [[days sp]|];
    [|discriminate]. cbv beta iota delta [bind] in H.
  exists days, sp. split; [reflexivity|].
  destruct (explicit_closed (entry_dtl e)).
  - left. inversion H. auto.
  - right. split; [reflexivity|].
    destruct (parse_time_ranges (entry_dtl e)) as [blocks|]; [|discriminate].
    exists blocks. split; [reflexivity|].
    set (ex1 := fold_left _ _ _) in *. set (w1 := extend_days _ _ _) in *.
    inversion H. auto.
Qed.




End ScheduleInvariant.



(** ** The evaluator never fails on what the builder hands on *)

Section EvaluatorTotal.









Lemma nth_error_DAY_ORDER i : (i < 7)%nat -> exists d, nth_error DAY_ORDER i = Some d.
Proof.
  intros H. destruct (nth_error DAY_ORDER i) eqn:E; [eauto|].
  apply nth_error_None in E. simpl in E. lia.
Qed.


End EvaluatorTotal.



(** ** What an entry does to the schedule *)

Section BuilderShape.

Lemma extend_days_spec blocks days :
  forall w d,
    extend_days w days blocks d =
    match w d with
    | Closed => Closed
    | Blocks bs => Blocks (bs ++ repeat_blocks (count_day d days) blocks)
    end.
Proof.
  unfold extend_days, repeat_blocks, count_day.
  induction days as [|d' days IH]; cbn [fold_left filter]; intros w d.
  - simpl. destruct (w d); [reflexivity | now rewrite app_nil_r].
  - rewrite IH. destruct (w d') as [|bs'] eqn:E'.
    + destruct (day_eqb d d') eqn:Ed.
      * apply day_eqb_eq in Ed. subst. now rewrite E'.
      * reflexivity.
    + unfold weekly_set. destruct (day_eqb d d') eqn:Ed.
      * apply day_eqb_eq in Ed. subst. rewrite E'. cbn [List.length repeat List.concat].
        now rewrite app_assoc.
      * reflexivity.
Qed.

Lemma count_day_absent d days :
  existsb (day_eqb d) days = false -> count_day d days = 0.
Proof.
  unfold count_day. induction days as [|d' days IH]; simpl; [reflexivity|].
  destruct (day_eqb d d'); simpl; [discriminate | exact IH].
Qed.

Lemma entry_step_untouched w ex e w' ex' d :
  entry_step (w, ex) e = Some (w', ex') ->
  existsb (day_eqb d) (entry_days e) = false ->
  w' d = w d.
Proof.
  intros H Hd. unfold entry_days in Hd.
  destruct (entry_step_cases _ _ _ _ _ H)
    as (days & sp & Hs & [(_ & -> & _) | (_ & blocks & _ & -> & _)]);
    rewrite Hs in Hd.
  - rewrite close_days_spec. now rewrite Hd.
  - rewrite extend_days_spec, (count_day_absent _ _ Hd).
    destruct (w d); [reflexivity|]. simpl. now rewrite app_nil_r.
Qed.

Lemma fold_entries_untouched es d :
  forall w ex w' ex',
    fold_opt entry_step es (w, ex) = Some (w', ex') ->
    Forall (fun e => existsb (day_eqb d) (entry_days e) = false) es ->
    w' d = w d.
Proof.
  induction es as [|e es IH]; cbn [fold_opt]; intros w ex w' ex' H Hall.
  - now injection H as <- _.
  - destruct (entry_step (w, ex) e) as [[w1 ex1]|] eqn:E; unfold bind in H;
      [|discriminate].
    inversion Hall; subst.
    rewrite (IH _ _ _ _ H) by assumption.
    eapply entry_step_untouched; eassumption.
Qed.

Lemma entry_step_grows w ex e w' ex' d bs :
  entry_step (w, ex) e = Some (w', ex') ->
  w d = Blocks bs ->
  w' d = Closed \/ exists more, w' d = Blocks (bs ++ more).
Proof.
  intros H Hd.
  destruct (entry_step_cases _ _ _ _ _ H)
    as (days & sp & Hs & [(_ & -> & _) | (_ & blocks & _ & -> & _)]).
  - rewrite close_days_spec. destruct (existsb _ _); [now left|].
    right. exists []. now rewrite app_nil_r.
  - rewrite extend_days_spec, Hd. right. eauto.
Qed.

Lemma fold_entries_grows es d :
  forall w ex w' ex' bs,
    fold_opt entry_step es (w, ex) = Some (w', ex') ->
    w d = Blocks bs ->
    w' d = Closed \/ exists more, w' d = Blocks (bs ++ more).
Proof.
  induction es as [|e es IH]; cbn [fold_opt]; intros w ex w' ex' bs H Hd.
  - injection H as <- _. right. exists []. now rewrite app_nil_r.
  - destruct (entry_step (w, ex) e) as [[w1 ex1]|] eqn:E; unfold bind in H;
      [|discriminate].
    destruct (entry_step_grows _ _ _ _ _ _ _ E Hd) as [Hc|[more Hm]].
    + left. eapply fold_entries_closed; eassumption.
    + destruct (IH _ _ _ _ _ H Hm) as [Hc|[more' Hm']]; [now left|].
      right. exists (more ++ more'). now rewrite app_assoc.
Qed.

End BuilderShape.

(** X4.  An entry that is not explicit-closed appends its blocks to a
    weekday once for every time its title names that weekday: a weekday the
    title does not name keeps its schedule, a weekday named twice gets the
    blocks twice, and a closed weekday stays closed. *)
Theorem entry_appends_per_occurrence w ex e w' ex' :
  entry_step (w, ex) e = Some (w', ex') ->
  explicit_closed (entry_dtl e) = false ->
  exists blocks,
    parse_time_ranges (entry_dtl e) = Some blocks /\
    forall d,
      w' d = match w d with
             | Closed => Closed
             | Blocks bs =>
                 Blocks (bs ++ repeat_blocks (count_day d (entry_days e)) blocks)
             end.
Proof.
  intros H Hc. unfold entry_days.
  destruct (entry_step_cases _ _ _ _ _ H)
    as (days & sp & Hs & [(Hc' & _) | (_ & blocks & Hp & -> & _)]);
    [congruence|].
  exists blocks. split; [assumption|]. intros d.
  rewrite Hs. apply extend_days_spec.
Qed.

Lemma entry_appends_per_occurrence_witness :
  exists blocks,
    parse_time_ranges "11:00-14:00" = Some blocks /\
    forall d,
      extend_days weekly_init [mon; wed; mon] blocks d =
      match weekly_init d with
      | Closed => Closed
      | Blocks bs =>
          Blocks (bs ++ repeat_blocks (count_day d [mon; wed; mon]) blocks)
      end.
Proof.
  destruct (entry_appends_per_occurrence weekly_init exceptions_init
              (raw_entry "Mon, Wed, Monday" "11:00-14:00")
              (extend_days weekly_init [mon; wed; mon]
                 [plain_block "11:00" "14:00" false])
              exceptions_init) as (blocks & Hp & Hd).
  - vm_compute. reflexivity.
  - vm_compute. reflexivity.
  - exists blocks. split; [exact Hp|].
    intros d. specialize (Hd d).
    assert (Hb : blocks = [plain_block "11:00" "14:00" false]).
    { vm_compute in Hp. now injection Hp as <-. }
    subst blocks. exact Hd.
Defined.

(** X5.  The builder leaves alone every weekday that no title names: its
    schedule is the empty block list it started with. *)
Theorem unnamed_days_stay_empty es n w ex d :
  build_schedule_fixed es n = Some (w, ex) ->
  Forall (fun e => existsb (day_eqb d) (entry_days e) = false) es ->
  w d = Blocks [].
Proof.
  intros H Hall. destruct es as [|e es].
  - unfold build_schedule_fixed in H. now injection H as <- _.
  - destruct (build_schedule_fixed_inv _ _ _ _ H) as [ex0 H0]; [discriminate|].
    now rewrite (fold_entries_untouched _ d _ _ _ _ H0 Hall).
Qed.

Lemma unnamed_days_stay_empty_witness :
  exists w ex,
    build_schedule_fixed
      [raw_entry "Mon-Fri" "11:00-14:00"; raw_entry "Sat" "Closed"] None
    = Some (w, ex) /\
    w sun = Blocks [].
Proof.
  destruct (build_schedule_fixed_total
              [raw_entry "Mon-Fri" "11:00-14:00"; raw_entry "Sat" "Closed"] None)
    as (w & ex & H).
  exists w, ex. split; [exact H|].
  apply (unnamed_days_stay_empty
           [raw_entry "Mon-Fri" "11:00-14:00"; raw_entry "Sat" "Closed"]
           None w ex sun H).
  repeat constructor.
Defined.

(** X6.  Blocks are only ever appended: when the builder, run on a list of
    entries, leaves a weekday with a block list, then run on that list
    followed by further entries it leaves the weekday closed or with a block
    list that starts with the earlier one. *)
Theorem blocks_only_grow es1 es2 n1 n2 w1 ex1 d bs :
  build_schedule_fixed es1 n1 = Some (w1, ex1) ->
  w1 d = Blocks bs ->
  exists w2 ex2,
    build_schedule_fixed (es1 ++ es2) n2 = Some (w2, ex2) /\
    (w2 d = Closed \/ exists more, w2 d = Blocks (bs ++ more)).
Proof.
  intros H1 Hd.
  destruct (build_schedule_fixed_total (es1 ++ es2) n2) as (w2 & ex2 & H2).
  exists w2, ex2. split; [assumption|].
  destruct es1 as [|e es1].
  - unfold build_schedule_fixed in H1. injection H1 as <- _.
    unfold weekly_init in Hd. injection Hd as <-.
    destruct (w2 d) as [|l]; [now left | right; now exists l].
  - destruct (build_schedule_fixed_inv _ _ _ _ H1) as [ex0 H0]; [discriminate|].
    destruct (build_schedule_fixed_inv _ _ _ _ H2) as [ex3 H3]; [discriminate|].
    rewrite fold_opt_app, H0 in H3. cbv beta iota delta [bind] in H3.
    exact (fold_entries_grows es2 d _ _ _ _ bs H3 Hd).
Qed.

Lemma blocks_only_grow_witness :
  exists w2 ex2,
    build_schedule_fixed
      ([raw_entry "Mon" "11:00-14:00"] ++ [raw_entry "Mon-Tue" "17:00-22:00"])
      None = Some (w2, ex2) /\
    (w2 mon = Closed \/
     exists more, w2 mon = Blocks ([plain_block "11:00" "14:00" false] ++ more)).
Proof.
  apply (blocks_only_grow [raw_entry "Mon" "11:00-14:00"]
           [raw_entry "Mon-Tue" "17:00-22:00"] None None
           (extend_days weekly_init [mon] [plain_block "11:00" "14:00" false])
           exceptions_init mon).
  - vm_compute. reflexivity.
  - reflexivity.
Defined.

(** ** Titles *)

Section Titles.

Local Open Scope string_scope.

Lemma split_from_sep sep (b : string) (a : string) :
  forall cur,
    PyStr.split_from sep (a ++ String sep b) cur =
    (PyStr.split_from sep a cur ++ PyStr.split_from sep b "")%list.
Proof.
  induction a as [|c a IH]; intros cur; simpl.
  - now rewrite Ascii.eqb_refl.
  - destruct (Ascii.eqb c sep); [simpl; now rewrite IH | apply IH].
Qed.

Lemma truthy_append_l (a b : string) : PyStr.truthy a = true -> PyStr.truthy (a ++ b) = true.
Proof. now destruct a. Qed.

Lemma truthy_nonempty (a : string) : a <> "" -> PyStr.truthy a = true.
Proof. destruct a; [congruence | reflexivity]. Qed.

Lemma set_add_In x c l : In x (set_add c l) <-> x = c \/ In x l.
Proof.
  unfold set_add. destruct (str_mem c l) eqn:E.
  - apply str_mem_In in E. split; [auto|]. intros [->|H]; assumption.
  - rewrite in_app_iff. simpl. intuition.
Qed.

(** The chunks of a title act on the running result independently of what
    it already holds. *)
Lemma chunk_step_frame W S wd sp wd0 sp0 c wd' sp' wd0' sp0' :
  wd = (W ++ wd0)%list ->
  (forall tag, sp_has tag sp = sp_has tag S || sp_has tag sp0) ->
  (forall x, In x (sp_raw sp) <-> In x (sp_raw S) \/ In x (sp_raw sp0)) ->
  chunk_step (wd, sp) c = Some (wd', sp') ->
  chunk_step (wd0, sp0) c = Some (wd0', sp0') ->
  wd' = (W ++ wd0')%list /\
  (forall tag, sp_has tag sp' = sp_has tag S || sp_has tag sp0') /\
  (forall x, In x (sp_raw sp') <-> In x (sp_raw S) \/ In x (sp_raw sp0')).
Proof.
  intros Hwd Hfl Hraw H H0. unfold chunk_step in H, H0.
  destruct (DAY_ALIASES _) as [d|].
  { injection H as <- <-. injection H0 as <- <-. subst wd.
    now rewrite app_assoc. }
  destruct (SPECIAL_KEYS _) as [tag|].
  { injection H as <- <-. injection H0 as <- <-. repeat split; try assumption.
    - intros tag'. pose proof (Hfl tag') as Ht.
      destruct tag, tag'; simpl in *; rewrite ?Ht, ?orb_true_r; reflexivity.
    - destruct tag; simpl; apply Hraw.
    - destruct tag; simpl; apply Hraw. }
  destruct (Re.match_ _ _) as [m|].
  { destruct (range_days m) as [ds|]; [|discriminate].
    cbv beta iota delta [bind] in H, H0.
    injection H as <- <-. injection H0 as <- <-. subst wd.
    now rewrite app_assoc. }
  injection H as <- <-. injection H0 as <- <-.
  split; [assumption|]. split; [exact Hfl|].
  intros x. unfold sp_add_raw, sp_raw. cbn [raw_titles]. rewrite !set_add_In.
  fold (sp_raw sp) (sp_raw sp0). rewrite Hraw. tauto.
Qed.

Lemma fold_chunks_frame W S cs :
  forall wd sp wd0 sp0 wd' sp' wd0' sp0',
    wd = (W ++ wd0)%list ->
    (forall tag, sp_has tag sp = sp_has tag S || sp_has tag sp0) ->
    (forall x, In x (sp_raw sp) <-> In x (sp_raw S) \/ In x (sp_raw sp0)) ->
    fold_opt chunk_step cs (wd, sp) = Some (wd', sp') ->
    fold_opt chunk_step cs (wd0, sp0) = Some (wd0', sp0') ->
    wd' = (W ++ wd0')%list /\
    (forall tag, sp_has tag sp' = sp_has tag S || sp_has tag sp0') /\
    (forall x, In x (sp_raw sp') <-> In x (sp_raw S) \/ In x (sp_raw sp0')).
Proof.
  induction cs as [|c cs IH]; cbn [fold_opt];
    intros wd sp wd0 sp0 wd' sp' wd0' sp0' Hwd Hfl Hraw H H0.
  - injection H as <- <-. injection H0 as <- <-. auto.
  - destruct (chunk_step (wd, sp) c) as [[wd1 sp1]|] eqn:E; [|discriminate].
    destruct (chunk_step (wd0, sp0) c) as [[wd2 sp2]|] eqn:E0; [|discriminate].
    cbv beta iota delta [bind] in H, H0.
    destruct (chunk_step_frame _ _ _ _ _ _ _ _ _ _ _ Hwd Hfl Hraw E E0)
      as (Hwd1 & Hfl1 & Hraw1).
    exact (IH _ _ _ _ _ _ _ _ Hwd1 Hfl1 Hraw1 H H0).
Qed.

Lemma split_title_nonempty (t : string) :
  t <> "" ->
  _split_and_normalize_days t =
  fold_opt chunk_step (map PyStr.strip (PyStr.split "," t)) ([], special_empty).
Proof.
  intros H. unfold _split_and_normalize_days.
  now rewrite (truthy_nonempty t H).
Qed.

End Titles.

(** X7.  Titles compose over the comma: for non-empty titles [a] and [b],
    the title [a,b] resolves to the weekdays of [a] followed by those of [b],
    has a special flag exactly when [a] or [b] has it, and its opaque titles
    are those of [a] and those of [b]. *)
Theorem title_composes_over_comma (a b : string) da sa db sb :
  a <> EmptyString -> b <> EmptyString ->
  _split_and_normalize_days a = Some (da, sa) ->
  _split_and_normalize_days b = Some (db, sb) ->
  exists s,
    _split_and_normalize_days (a ++ String "," b)%string = Some (da ++ db, s) /\
    (forall tag, sp_has tag s = sp_has tag sa || sp_has tag sb) /\
    (forall x, In x (sp_raw s) <-> In x (sp_raw sa) \/ In x (sp_raw sb)).
Proof.
  intros Ha Hb Hsa Hsb.
  rewrite split_title_nonempty in Hsa, Hsb by assumption.
  rewrite split_title_nonempty by (destruct a; [congruence | discriminate]).
  unfold PyStr.split. rewrite split_from_sep, map_app, fold_opt_app.
  fold (PyStr.split "," a) (PyStr.split "," b). rewrite Hsa.
  cbv beta iota delta [bind].
  destruct (fold_opt_total chunk_step (map PyStr.strip (PyStr.split "," b))
              chunk_step_total (da, sa)) as [[wd s] Hs].
  assert (Hwd0 : da = (da ++ [])%list) by now rewrite app_nil_r.
  assert (Hfl0 : forall tag,
             sp_has tag sa = sp_has tag sa || sp_has tag special_empty).
  { intros tag. destruct tag; simpl; now rewrite orb_false_r. }
  assert (Hraw0 : forall x,
             In x (sp_raw sa) <-> In x (sp_raw sa) \/ In x (sp_raw special_empty)).
  { intros x. simpl. tauto. }
  destruct (fold_chunks_frame da sa (map PyStr.strip (PyStr.split "," b))
              da sa [] special_empty wd s db sb Hwd0 Hfl0 Hraw0 Hs Hsb)
    as (Hwd & Hfl & Hraw).
  exists s. subst wd. auto.
Qed.

Lemma title_composes_over_comma_witness :
  exists s,
    _split_and_normalize_days "Mon-Wed, Irregular,Public Holiday, Sat" =
    Some ([mon; tue; wed] ++ [sat], s) /\
    (forall tag,
        sp_has tag s =
        sp_has tag (mkSpecial false false false (Some ["Irregular"])) ||
        sp_has tag (mkSpecial true false false None)) /\
    (forall x,
        In x (sp_raw s) <->
        In x (sp_raw (mkSpecial false false false (Some ["Irregular"]))) \/
        In x (sp_raw (mkSpecial true false false None))).
Proof.
  apply (title_composes_over_comma "Mon-Wed, Irregular" "Public Holiday, Sat").
  - discriminate.
  - discriminate.
  - vm_compute. reflexivity.
  - vm_compute. reflexivity.
Defined.

(** X8.  A title that ends in a comma has an empty last chunk, and the empty
    chunk is recorded as an opaque title: the title resolves to the same
    weekdays and flags as without the comma, and the empty string is among
    its opaque titles. *)
Theorem trailing_comma_records_empty_title (t : string) days sp :
  t <> EmptyString ->
  _split_and_normalize_days t = Some (days, sp) ->
  _split_and_normalize_days (t ++ ",")%string =
  Some (days, sp_add_raw EmptyString sp) /\
  In EmptyString (sp_raw (sp_add_raw EmptyString sp)).
Proof.
  intros Ht Hs. split.
  - rewrite split_title_nonempty in Hs by assumption.
    rewrite split_title_nonempty by (destruct t; [congruence | discriminate]).
    unfold PyStr.split. rewrite split_from_sep, map_app, fold_opt_app.
    fold (PyStr.split "," t). rewrite Hs. reflexivity.
  - unfold sp_add_raw, sp_raw. cbn [raw_titles]. apply set_add_In. now left.
Qed.

Lemma trailing_comma_records_empty_title_witness :
  _split_and_normalize_days "Mon," =
  Some ([mon], mkSpecial false false false (Some [EmptyString])) /\
  In EmptyString [EmptyString].
Proof.
  apply (trailing_comma_records_empty_title "Mon" [mon] special_empty).
  - discriminate.
  - reflexivity.
Defined.

(** ** Figures of the evaluator *)

Section EvaluatorFigures.

Local Open Scope Z_scope.

Lemma int_digits_nonneg (s : string) :
  forall acc z, 0 <= acc -> PyStr.int_digits s acc = Some z -> 0 <= z.
Proof.
  induction s as [|c s IH]; simpl; intros acc z Hacc H.
  - injection H as <-. assumption.
  - destruct (PyStr.is_digit c); [|discriminate].
    apply (IH (acc * 10 + PyStr.digit_val c) z); [|assumption].
    unfold PyStr.digit_val. lia.
Qed.

Lemma int_nonneg s z : PyStr.int s = Some z -> 0 <= z.
Proof.
  unfold PyStr.int. destruct s; [discriminate|].
  apply int_digits_nonneg. lia.
Qed.

Lemma to_minutes_nonneg t z : _to_minutes t = Some z -> 0 <= z.
Proof.
  unfold _to_minutes. destruct (PyStr.split ":" t) as [|hs [|ms [|x l]]];
    try discriminate.
  destruct (PyStr.int hs) as [h|] eqn:Eh; [|discriminate].
  destruct (PyStr.int ms) as [m|] eqn:Em; [|discriminate].
  cbv beta iota delta [bind]. intros H. injection H as <-.
  apply int_nonneg in Eh, Em. destruct (h =? 24); lia.
Qed.

Lemma map_opt_nonneg l :
  forall ts, map_opt _to_minutes l = Some ts -> Forall (Z.le 0) ts.
Proof.
  induction l as [|a l IH]; cbn [map_opt]; intros ts H.
  - injection H as <-. constructor.
  - destruct (_to_minutes a) as [z|] eqn:Ea; [|discriminate].
    destruct (map_opt _to_minutes l) as [zs|]; [|discriminate].
    cbv beta iota delta [bind] in H. injection H as <-.
    constructor; [now apply to_minutes_nonneg in Ea | now apply IH].
Qed.

Lemma list_min_nonneg l : forall x, 0 <= x -> Forall (Z.le 0) l -> 0 <= list_min x l.
Proof.
  unfold list_min. induction l as [|y l IH]; simpl; intros x Hx H; [assumption|].
  inversion H; subst. apply IH; [lia | assumption].
Qed.

Lemma lo_in_of_nonneg crosses start end_ now_min lo_t v :
  now_min < 1440 -> 0 <= lo_t ->
  lo_in_of crosses start end_ now_min lo_t = Some v -> 0 <= v.
Proof.
  intros Hn Hl. unfold lo_in_of.
  repeat match goal with
         | |- context [if ?c then _ else _] => destruct c
         end; intros H; try discriminate;
    apply (f_equal (fun o => match o with Some x => x | None => v end)) in H;
    cbv beta iota in H; subst v; lia.
Qed.

(** What a block that answers holds. *)
Lemma eval_block_open b now_min st :
  eval_block b now_min = Some (Some st) ->
  exists start end_ lo_in,
    _to_minutes (b_open b) = Some start /\
    _to_minutes (b_close b) = Some end_ /\
    in_window_of (crosses_midnight b) start end_ now_min = true /\
    st = StatusOpen (mkSegment (b_open b) (b_close b) (lo_truthy (last_order b)))
           (Some (closes_in_of (crosses_midnight b) start end_ now_min))
           lo_in (crosses_midnight b) /\
    (forall v, lo_in = Some v -> now_min < 1440 -> 0 <= v).
Proof.
  unfold eval_block.
  destruct (_to_minutes (b_open b)) as [start|]; [|discriminate].
  destruct (_to_minutes (b_close b)) as [end_|]; [|discriminate].
  cbv beta iota delta [bind].
  destruct (in_window_of _ _ _ _) eqn:Hw; [|discriminate].
  destruct (lo_truthy (last_order b)) as [d|].
  - destruct (lo_times d) as [[|t ts]|] eqn:Et; [| |discriminate].
    + intros H. injection H as <-. exists start, end_, None.
      repeat split; auto. discriminate.
    + intros H. injection H as <-. eexists start, end_, _.
      repeat split; auto. intros v Hv Hn.
      unfold lo_times in Et. apply map_opt_nonneg in Et. inversion Et; subst.
      eapply lo_in_of_nonneg; [exact Hn | | exact Hv].
      now apply list_min_nonneg.
  - intros H. injection H as <-. exists start, end_, None.
    repeat split; auto. discriminate.
Qed.

Lemma scan_blocks_some bs now_min st :
  scan_blocks bs now_min = Some (Some st) ->
  exists pre b post,
    bs = (pre ++ b :: post)%list /\
    Forall (fun b' => eval_block b' now_min = Some None) pre /\
    eval_block b now_min = Some (Some st).
Proof.
  induction bs as [|b bs IH]; cbn [scan_blocks]; [discriminate|].
  destruct (eval_block b now_min) as [[st'|]|] eqn:E; [| |discriminate];
    cbv beta iota delta [bind]; intros H.
  - injection H as <-. exists [], b, bs. repeat split; auto.
  - destruct (IH H) as (pre & b' & post & -> & Hpre & Hb).
    exists (b :: pre), b', post. repeat split; auto.
Qed.

Lemma first_future_some bs now_min v :
  first_future bs now_min = Some (Some v) ->
  exists b st,
    In b bs /\ carried_from_prev b = false /\
    _to_minutes (b_open b) = Some st /\ st > now_min /\ v = st - now_min.
Proof.
  induction bs as [|b bs IH]; cbn [first_future]; [discriminate|].
  destruct (_to_minutes (b_open b)) as [st|] eqn:E; [|discriminate].
  cbv beta iota delta [bind].
  destruct (carried_from_prev b) eqn:Ec.
  - intros H. destruct (IH H) as (b' & st' & Hin & ?). exists b', st'.
    split; [now right | assumption].
  - destruct (st >? now_min) eqn:Eg.
    + intros H. injection H as <-. exists b, st.
      repeat split; auto; [now left | lia].
    + intros H. destruct (IH H) as (b' & st' & Hin & ?). exists b', st'.
      split; [now right | assumption].
Qed.

Lemma calc_open_now_cases s now st :
  calc_open_now s now = Some st ->
  (st = StatusClosedBare /\ own_blocks s = []) \/
  (exists bs, s = Blocks bs /\ bs <> [] /\
     scan_blocks bs (now_min_of now) = Some (Some st)) \/
  (exists bs ff, s = Blocks bs /\ bs <> [] /\
     scan_blocks bs (now_min_of now) = Some None /\
     first_future bs (now_min_of now) = Some ff /\ st = StatusClosed ff).
Proof.
  destruct s as [|[|b bs]].
  - simpl. intros H. injection H as <-. now left.
  - simpl. intros H. injection H as <-. now left.
  - rewrite calc_open_now_nonempty by discriminate.
    destruct (scan_blocks _ _) as [[st'|]|] eqn:E; [| |discriminate];
      cbv beta iota delta [bind]; intros H.
    + injection H as <-. right. left. exists (b :: bs). repeat split; auto.
      discriminate.
    + destruct (first_future _ _) as [ff|] eqn:Ef; [|discriminate].
      injection H as <-. right. right. exists (b :: bs), ff.
      repeat split; auto. discriminate.
Qed.

Lemma now_min_range now : clock_wf now -> 0 <= now_min_of now < 1440.
Proof. unfold clock_wf, now_min_of. lia. Qed.

End EvaluatorFigures.

(** X9.  For a clock time of a day and blocks whose times are minutes of a
    day and whose flag is the comparison of close with open: an open status has a [closes_in_min] between 1 and 1440 and a
    [lo_in_min] that is null or not negative; a closed status has an
    [opens_in_min] that is null or between 1 and 1439. *)
Theorem countdowns_in_range bs now st :
  clock_wf now ->
  Forall in_day bs ->
  calc_open_now (Blocks bs) now = Some st ->
  match st with
  | StatusOpen _ c l _ =>
      (exists cv, c = Some cv /\ (0 < cv <= 1440)%Z) /\
      (forall lv, l = Some lv -> (0 <= lv)%Z)
  | StatusClosed (Some v) => (0 < v < 1440)%Z
  | _ => True
  end.
Proof.
  intros Hc Hd H. apply now_min_range in Hc.
  destruct (calc_open_now_cases _ _ _ H)
    as [(-> & _) | [(bs' & Hbs & _ & Hs) | (bs' & ff & Hbs & _ & _ & Hf & ->)]];
    [exact I | |]; injection Hbs as <-.
  - apply scan_blocks_some in Hs.
    destruct Hs as (pre & b & post & -> & _ & Hb).
    apply eval_block_open in Hb.
    destruct Hb as (start & end_ & lo_in & Hs & He & Hw & -> & Hlo).
    rewrite Forall_forall in Hd.
    destruct (Hd b) as (s & e & Hs' & He' & Hsr & Her & Hx);
      [apply in_or_app; right; now left|].
    assert (s = start) by congruence. assert (e = end_) by congruence. subst.
    split.
    + eexists. split; [reflexivity|].
      unfold in_window_of in Hw. unfold closes_in_of. rewrite Hx in *.
      destruct (end_ <=? start)%Z eqn:Ex; cbn [negb] in *.
      * apply Z.leb_le in Ex.
        destruct (now_min_of now >=? start)%Z eqn:E.
        -- rewrite Z.geb_leb in E. apply Z.leb_le in E. lia.
        -- simpl in Hw. apply Z.ltb_lt in Hw. lia.
      * apply andb_prop in Hw. destruct Hw as [_ Hw]. apply Z.ltb_lt in Hw. lia.
    + intros lv Hlv. apply (Hlo lv Hlv). lia.
  - destruct ff as [v|]; [|exact I].
    apply first_future_some in Hf.
    destruct Hf as (b & st & Hin & _ & Hs & Hgt & ->).
    rewrite Forall_forall in Hd.
    destruct (Hd b Hin) as (s & e & Hs' & _ & Hsr & _ & _).
    assert (s = st) by congruence. subst. lia.
Qed.

Lemma countdowns_in_range_witness :
  (exists cv, Some 90%Z = Some cv /\ (0 < cv <= 1440)%Z) /\
  (forall lv, Some 60%Z = Some lv -> (0 <= lv)%Z).
Proof.
  apply (countdowns_in_range
           [mkBlock "11:30" "14:00" false (Some (mkLo (Some "13:30") None None)) false]
           (mkTime 12 30)
           (StatusOpen (mkSegment "11:30" "14:00" (Some (mkLo (Some "13:30") None None)))
              (Some 90%Z) (Some 60%Z) false)).
  - unfold clock_wf. simpl. lia.
  - constructor; [|constructor].
    exists 690%Z, 840%Z. repeat split; try reflexivity; lia.
  - reflexivity.
Defined.

(** X10.  A block whose close equals its open in minutes and that carries
    the crossing flag, as the parser sets it for such a range (00:00-24:00 is
    one), answers at every minute: when it comes first the status is open
    whatever the time. *)
Theorem equal_ends_open_around_the_clock b rest now start :
  _to_minutes (b_open b) = Some start ->
  _to_minutes (b_close b) = Some start ->
  crosses_midnight b = true ->
  lo_parses b ->
  exists seg c l,
    calc_open_now (Blocks (b :: rest)) now = Some (StatusOpen seg c l true).
Proof.
  intros Ho Hc Hx Hlo.
  assert (Hw : in_window_of (crosses_midnight b) start start (now_min_of now) = true).
  { rewrite Hx. unfold in_window_of. cbn [negb]. rewrite Z.geb_leb.
    destruct (start <=? now_min_of now)%Z eqn:E; [reflexivity|].
    apply Z.leb_gt in E. simpl. now apply Z.ltb_lt. }
  rewrite calc_open_now_nonempty by discriminate. cbn [scan_blocks].
  destruct (eval_block_inside b _ start start Ho Hc Hw Hlo) as [li ->].
  cbv beta iota delta [bind]. rewrite Hx. eauto.
Qed.

Lemma equal_ends_open_around_the_clock_witness :
  parse_time_ranges "00:00-24:00" = Some [plain_block "00:00" "24:00" true] /\
  exists seg c l,
    calc_open_now (Blocks (plain_block "00:00" "24:00" true :: [])) (mkTime 3 45) =
    Some (StatusOpen seg c l true).
Proof.
  split; [vm_compute; reflexivity|].
  apply (equal_ends_open_around_the_clock (plain_block "00:00" "24:00" true) []
           (mkTime 3 45) 0%Z).
  - reflexivity.
  - reflexivity.
  - reflexivity.
  - exact I.
Defined.

(** ** Today's summary *)

Section Summary.

Lemma scan_blocks_app_some bs more now_min st :
  scan_blocks bs now_min = Some (Some st) ->
  scan_blocks (bs ++ more) now_min = Some (Some st).
Proof.
  induction bs as [|b bs IH]; cbn [scan_blocks app]; [discriminate|].
  destruct (eval_block b now_min) as [[st'|]|]; cbv beta iota delta [bind];
    auto.
Qed.

Lemma prev_weekday_lt n : (prev_weekday n < 7)%nat.
Proof.
  unfold prev_weekday.
  pose proof (Z.mod_pos_bound (Z.of_nat n - 1) 7). lia.
Qed.

(** [summarize_for_today] in terms of the blocks it evaluates. *)
Lemma summarize_for_today_unfold w lt dow prev :
  nth_error DAY_ORDER (weekday lt) = Some dow ->
  nth_error DAY_ORDER (prev_weekday (weekday lt)) = Some prev ->
  summarize_for_today w lt =
  (st <- calc_open_now
           (match own_blocks (w dow) ++ carried_blocks (w prev) with
            | [] => Closed
            | bs => Blocks bs
            end) (clock lt) ;;
   Some (compact_today (match w dow with Blocks [] => Closed | s => s end), st)).
Proof.
  intros Hd Hp. unfold summarize_for_today. fold (prev_weekday (weekday lt)).
  rewrite Hd, Hp. cbv beta iota delta [bind].
  destruct (w dow) as [|[|b bs]];
    cbn [blocks_for_status own_blocks app];
    try (destruct (carried_blocks (w prev)); reflexivity).
Qed.

Lemma carried_blocks_flag p b : In b (carried_blocks p) -> carried_from_prev b = true.
Proof.
  destruct p as [|bs]; simpl; [contradiction|].
  intros H. apply in_map_iff in H. now destruct H as (b0 & <- & _).
Qed.

End Summary.

(** X11.  Today's own blocks come before the carried ones: when evaluating
    today's schedule alone gives an open status, [summarize_for_today] gives
    that same status, whatever the previous day carries over. *)
Theorem today_wins_over_carried w lt dow st :
  nth_error DAY_ORDER (weekday lt) = Some dow ->
  calc_open_now (w dow) (clock lt) = Some st ->
  is_open st = true ->
  exists txt, summarize_for_today w lt = Some (txt, st).
Proof.
  intros Hd Hc Ho.
  destruct (nth_error_DAY_ORDER _ (prev_weekday_lt (weekday lt))) as [prev Hp].
  rewrite (summarize_for_today_unfold w lt dow prev Hd Hp).
  destruct (calc_open_now_cases _ _ _ Hc)
    as [(-> & _) | [(bs & Hbs & Hne & Hs) | (bs & ff & _ & _ & _ & _ & ->)]];
    try discriminate Ho.
  rewrite Hbs. cbn [own_blocks].
  destruct (bs ++ carried_blocks (w prev)) as [|x l] eqn:E.
  { destruct bs; [congruence | discriminate]. }
  rewrite <- E. rewrite calc_open_now_nonempty by (rewrite E; discriminate).
  rewrite (scan_blocks_app_some _ _ _ _ Hs). cbv beta iota delta [bind]. eauto.
Qed.

Lemma today_wins_over_carried_witness :
  let w := fun d => match d with
                    | mon => Blocks [plain_block "18:00" "02:00" true]
                    | tue => Blocks [plain_block "00:30" "05:00" false]
                    | _ => Blocks []
                    end in
  exists txt,
    summarize_for_today w (mkLocal 1 (mkTime 1 0)) =
    Some (txt, StatusOpen (mkSegment "00:30" "05:00" None) (Some 240%Z) None false).
Proof.
  intros w.
  apply (today_wins_over_carried w (mkLocal 1 (mkTime 1 0)) tue).
  - reflexivity.
  - reflexivity.
  - reflexivity.
Defined.

(** X12.  Hours that run past midnight are seen on the next day: when no
    block of today contains now and the first crossing block of the previous
    day has a close after now (and, as the parser guarantees, a close not
    after its open), the status is open with that block as segment and
    [closes_in_min] is close minus now. *)
Theorem carried_block_open_after_midnight w lt dow prev pbs b start end_ :
  nth_error DAY_ORDER (weekday lt) = Some dow ->
  nth_error DAY_ORDER (prev_weekday (weekday lt)) = Some prev ->
  Forall (fun b' => window_contains b' (now_min_of (clock lt)) = Some false)
    (own_blocks (w dow)) ->
  w prev = Blocks pbs ->
  hd_error (filter crosses_midnight pbs) = Some b ->
  _to_minutes (b_open b) = Some start ->
  _to_minutes (b_close b) = Some end_ ->
  (now_min_of (clock lt) < end_ <= start)%Z ->
  lo_parses b ->
  exists txt li,
    summarize_for_today w lt =
    Some (txt,
          StatusOpen (mkSegment (b_open b) (b_close b) (lo_truthy (last_order b)))
            (Some (end_ - now_min_of (clock lt))%Z) li true).
Proof.
  intros Hd Hp Hown Hprev Hb Hs He Hr Hlo.
  rewrite (summarize_for_today_unfold w lt dow prev Hd Hp).
  rewrite Hprev. cbn [carried_blocks].
  destruct (filter crosses_midnight pbs) as [|b0 rest] eqn:Ef; [discriminate|].
  injection Hb as ->.
  assert (Hx : crosses_midnight b = true).
  { assert (Hin : In b (filter crosses_midnight pbs)) by (rewrite Ef; now left).
    apply filter_In in Hin. tauto. }
  cbn [map].
  destruct (own_blocks (w dow) ++ carry b :: map carry rest) as [|x l] eqn:E.
  { destruct (own_blocks (w dow)); discriminate. }
  rewrite <- E. rewrite calc_open_now_nonempty by (rewrite E; discriminate).
  rewrite scan_blocks_skip by assumption. cbn [scan_blocks].
  assert (Hw : in_window_of (crosses_midnight (carry b)) start end_
                 (now_min_of (clock lt)) = true).
  { cbn [carry crosses_midnight]. rewrite Hx. unfold in_window_of. cbn [negb].
    apply orb_true_iff. right. apply Z.ltb_lt. lia. }
  destruct (eval_block_inside (carry b) (now_min_of (clock lt)) start end_
              Hs He Hw Hlo) as [li ->].
  cbv beta iota delta [bind]. cbn [carry b_open b_close last_order crosses_midnight].
  rewrite Hx. unfold minutes_until_close.
  destruct (start <=? now_min_of (clock lt))%Z eqn:El;
    [apply Z.leb_le in El; lia|].
  cbn [andb]. rewrite Z.add_0_r. eauto.
Qed.

Lemma carried_block_open_after_midnight_witness :
  let w := fun d => match d with
                    | mon => Blocks [plain_block "11:00" "14:00" false;
                                     plain_block "18:00" "02:00" true]
                    | tue => Closed
                    | _ => Blocks []
                    end in
  exists txt li,
    summarize_for_today w (mkLocal 1 (mkTime 1 0)) =
    Some (txt, StatusOpen (mkSegment "18:00" "02:00" None) (Some (120 - 60)%Z) li true).
Proof.
  intros w.
  apply (carried_block_open_after_midnight w (mkLocal 1 (mkTime 1 0)) tue mon
           [plain_block "11:00" "14:00" false; plain_block "18:00" "02:00" true]
           (plain_block "18:00" "02:00" true) 1080%Z 120%Z).
  - reflexivity.
  - reflexivity.
  - constructor.
  - reflexivity.
  - reflexivity.
  - reflexivity.
  - reflexivity.
  - unfold now_min_of. simpl. lia.
  - exact I.
Defined.

(** X13.  A carried block never says when the venue opens: when
    [summarize_for_today] gives a closed status with an [opens_in_min], that
    figure is positive and is open minus now of one of today's own blocks. *)
Theorem opens_in_min_from_own_blocks w lt txt v :
  summarize_for_today w lt = Some (txt, StatusClosed (Some v)) ->
  exists dow b st,
    nth_error DAY_ORDER (weekday lt) = Some dow /\
    In b (own_blocks (w dow)) /\
    carried_from_prev b = false /\
    _to_minutes (b_open b) = Some st /\
    (v = st - now_min_of (clock lt))%Z /\ (0 < v)%Z.
Proof.
  intros H.
  destruct (nth_error DAY_ORDER (weekday lt)) as [dow|] eqn:Hd.
  2:{ unfold summarize_for_today in H. rewrite Hd in H. discriminate. }
  destruct (nth_error_DAY_ORDER _ (prev_weekday_lt (weekday lt))) as [prev Hp].
  rewrite (summarize_for_today_unfold w lt dow prev Hd Hp) in H.
  destruct (calc_open_now _ (clock lt)) as [st0|] eqn:Hc; [|discriminate].
  cbv beta iota delta [bind] in H. injection H as _ ->.
  destruct (calc_open_now_cases _ _ _ Hc)
    as [(Hbare & _) | [(bs & _ & _ & Hs) | (bs & ff & Hbs & _ & _ & Hf & Hst)]].
  - discriminate.
  - apply scan_blocks_some in Hs. destruct Hs as (? & b & ? & _ & _ & Hb).
    apply eval_block_open in Hb. destruct Hb as (? & ? & ? & _ & _ & _ & Hb & _).
    discriminate.
  - injection Hst as <-. apply first_future_some in Hf.
    destruct Hf as (b & st & Hin & Hcf & Hs & Hgt & ->).
    exists dow, b, st. repeat split; auto; [|lia].
    assert (Hin' : In b (own_blocks (w dow) ++ carried_blocks (w prev))).
    { destruct (own_blocks (w dow) ++ carried_blocks (w prev)) eqn:E;
        [discriminate | now injection Hbs as <-]. }
    apply in_app_or in Hin'. destruct Hin' as [Ho|Hcar]; [assumption|].
    apply carried_blocks_flag in Hcar. congruence.
Qed.

Lemma opens_in_min_from_own_blocks_witness :
  let w := fun d => match d with
                    | mon => Blocks [plain_block "18:00" "02:00" true]
                    | tue => Blocks [plain_block "11:00" "14:00" false]
                    | _ => Blocks []
                    end in
  exists dow b st,
    nth_error DAY_ORDER 1 = Some dow /\
    In b (own_blocks (w dow)) /\
    carried_from_prev b = false /\
    _to_minutes (b_open b) = Some st /\
    (480 = st - 180)%Z /\ (0 < 480)%Z.
Proof.
  intros w.
  apply (opens_in_min_from_own_blocks w (mkLocal 1 (mkTime 3 0)) "11:00–14:00" 480%Z).
  reflexivity.
Defined.

(** ** Display *)

(** X14.  The two renderers agree: the label [compact_today] gives a block
    is the label [_range_label_for_display] gives it, so a day with one block
    reads the same in today's line and in the line of the week. *)
Theorem block_labels_agree b :
  compact_label b = _range_label_for_display b /\
  compact_today (Blocks [b]) = _range_label_for_display b.
Proof.
  assert (H : compact_label b = _range_label_for_display b).
  { unfold compact_label, _range_label_for_display, food_drinks_parts,
      lo_or_empty, lo_truthy, get_truthy.
    destruct (last_order b) as [[[g|] [f|] [d|]]|]; cbn [lo_is_empty lo_food
      lo_drinks lo_generic lo_empty];
      repeat match goal with
             | |- context [PyStr.truthy ?x] => destruct (PyStr.truthy x)
             end; reflexivity. }
  split; [exact H|].
  unfold compact_today, compact_labels. cbn [map]. unfold join. simpl.
  exact H.
Qed.

(** X19.  The line for an open status that the evaluator returns always
    ends with the time to closing: it is "Closes in Nm", preceded by
    "LO in Nm" and a separator exactly when [lo_in_min] is positive; a null
    or zero [lo_in_min] is not shown, and the line is never the bare word
    "Open". *)
Theorem next_change_of_open_status s now st :
  calc_open_now s now = Some st ->
  is_open st = true ->
  exists m,
    closes_in_min st = Some m /\
    format_next_change st =
    (match lo_in_min st with
     | Some l => if (l >? 0)%Z then "LO in " ++ str_of_int l ++ "m · " else ""
     | None => ""
     end ++ "Closes in " ++ str_of_int m ++ "m")%string.
Proof.
  intros H Ho.
  destruct (calc_open_now_cases _ _ _ H)
    as [(-> & _) | [(bs & _ & _ & Hs) | (bs & ff & _ & _ & _ & _ & ->)]];
    try discriminate Ho.
  apply scan_blocks_some in Hs. destruct Hs as (pre & b & post & _ & _ & Hb).
  apply eval_block_open in Hb.
  destruct Hb as (start & end_ & lo_in & _ & _ & _ & -> & _).
  eexists. split; [reflexivity|].
  unfold format_next_change, lo_in_min.
  destruct lo_in as [l|]; [destruct (l >? 0)%Z|]; try reflexivity.
  cbn [app join String.concat]. now rewrite !append_assoc.
Qed.

Lemma next_change_of_open_status_witness :
  exists m,
    Some 180%Z = Some m /\
    "Closes in 180m" = ("" ++ "Closes in " ++ str_of_int m ++ "m")%string.
Proof.
  apply (next_change_of_open_status
           (Blocks [mkBlock "22:00" "02:00" true
                      (Some (mkLo (Some "22:30") None None)) false])
           (mkTime 23 0)
           (StatusOpen (mkSegment "22:00" "02:00" (Some (mkLo (Some "22:30") None None)))
              (Some 180%Z) (Some 0%Z) true)).
  - reflexivity.
  - reflexivity.
Defined.

Section DayGroups.

Lemma sort_insert_filter f d :
  f d = false ->
  insert_day d (filter f DAY_ORDER) =
  filter (fun x => day_eqb x d || f x) DAY_ORDER.
Proof.
  unfold DAY_ORDER. cbn [filter]. intros Hf.
  destruct d; cbn [day_eqb orb]; rewrite Hf;
    destruct (f mon), (f tue), (f wed), (f thu), (f fri), (f sat), (f sun);
    try discriminate Hf; vm_compute; reflexivity.
Qed.

Lemma sort_dedup_days l :
  sort_days (dedup_days l) = filter (fun d => existsb (day_eqb d) l) DAY_ORDER.
Proof.
  induction l as [|d l IH]; [reflexivity|].
  cbn [dedup_days]. destruct (existsb (day_eqb d) l) eqn:E.
  - rewrite IH. apply filter_ext. intros x. cbn [existsb].
    destruct (day_eqb x d) eqn:Ex; [|reflexivity].
    apply day_eqb_eq in Ex. subst. now rewrite E.
  - unfold sort_days. cbn [fold_right]. fold (sort_days (dedup_days l)).
    rewrite IH. now rewrite sort_insert_filter.
Qed.

Lemma day_runs_of_filter f :
  let l := filter f DAY_ORDER in
  List.concat (day_runs l) = l /\
  Forall (fun r =>
            r <> [] /\
            r = slice (index_of_day (hd mon r))
                  (index_of_day (hd mon r) + List.length r) DAY_ORDER)
    (day_runs l) /\
  runs_apart (day_runs l).
Proof.
  unfold DAY_ORDER. cbn [filter].
  destruct (f mon), (f tue), (f wed), (f thu), (f fri), (f sat), (f sun);
    vm_compute; repeat split;
    repeat (constructor; [split; [discriminate | reflexivity]|]);
    try constructor; lia.
Qed.

End DayGroups.

(** X15.  [group_days] works on the members of its argument in the order of
    the week, each once, and cuts them into runs: the runs put together are
    these days, every run is a stretch of consecutive days of the week, and
    between two runs at least one day is left out (so the runs are as long
    as they can be, and a run never wraps from Sunday to Monday). *)
Theorem day_runs_are_maximal_stretches days :
  let l := sort_days (dedup_days days) in
  l = filter (fun d => existsb (day_eqb d) days) DAY_ORDER /\
  List.concat (day_runs l) = l /\
  Forall (fun r =>
            r <> [] /\
            r = slice (index_of_day (hd mon r))
                  (index_of_day (hd mon r) + List.length r) DAY_ORDER)
    (day_runs l) /\
  runs_apart (day_runs l).
Proof.
  cbv zeta. rewrite sort_dedup_days. split; [reflexivity|].
  apply day_runs_of_filter.
Qed.

(** X16.  The text of [group_days] depends only on which days its argument
    holds, not on their order or on repetitions. *)
Theorem group_days_of_the_set days days' :
  (forall d, In d days <-> In d days') ->
  group_days days = group_days days'.
Proof.
  intros H.
  assert (Hf : filter (fun d => existsb (day_eqb d) days) DAY_ORDER =
               filter (fun d => existsb (day_eqb d) days') DAY_ORDER).
  { apply filter_ext. intros x.
    destruct (existsb (day_eqb x) days) eqn:E, (existsb (day_eqb x) days') eqn:E';
      try reflexivity.
    - apply existsb_exists in E. destruct E as (y & Hy & Ey).
      apply day_eqb_eq in Ey. subst y. apply H in Hy.
      assert (existsb (day_eqb x) days' = true).
      { apply existsb_exists. exists x. split; [assumption | now destruct x]. }
      congruence.
    - apply existsb_exists in E'. destruct E' as (y & Hy & Ey).
      apply day_eqb_eq in Ey. subst y. apply H in Hy.
      assert (existsb (day_eqb x) days = true).
      { apply existsb_exists. exists x. split; [assumption | now destruct x]. }
      congruence. }
  unfold group_days. rewrite !sort_dedup_days, Hf.
  destruct days as [|d l], days' as [|d' l']; try reflexivity.
  exfalso. apply (H d'). now left.
Qed.

Lemma group_days_of_the_set_witness :
  group_days [sat; mon; sun; mon; tue] = group_days [mon; tue; sat; sun] /\
  group_days [mon; tue; sat; sun] = "Mon–Tue, Sat–Sun".
Proof.
  split; [|vm_compute; reflexivity].
  apply (group_days_of_the_set [sat; mon; sun; mon; tue] [mon; tue; sat; sun]).
  intros d. destruct d; simpl; intuition discriminate.
Defined.

Section WeekGroups.

Variable w : weekly.

Lemma sig_keys_agree sig d s :
  forall m sb,
    map fst sb = map fst m ->
    map fst (sig_blocks_set sig s sb) = map fst (by_sig_append sig d m).
Proof.
  induction m as [|[k v] m IH]; intros [|[k' v'] sb] H; try discriminate.
  - reflexivity.
  - cbn [map fst] in H. injection H as -> H.
    cbn [sig_blocks_set by_sig_append].
    destruct (String.eqb k sig); cbn [map fst]; [now rewrite H|].
    now rewrite (IH sb H).
Qed.

Lemma by_sig_append_In sig d m k v :
  In (k, v) (by_sig_append sig d m) ->
  In (k, v) m \/
  (k = sig /\ (v = [d] \/ exists v0, In (k, v0) m /\ v = v0 ++ [d])).
Proof.
  induction m as [|[k0 v0] m IH]; cbn [by_sig_append].
  - intros [H|[]]. injection H as <- <-. right. auto.
  - destruct (String.eqb k0 sig) eqn:E.
    + apply String.eqb_eq in E. subst k0. intros [H|H].
      * injection H as <- <-. right. split; [reflexivity|].
        right. exists v0. split; [now left | reflexivity].
      * left. now right.
    + intros [H|H]; [left; now left|].
      destruct (IH H) as [Hin|(-> & [->|(v1 & Hin & ->)])].
      * left. now right.
      * right. auto.
      * right. split; [reflexivity|]. right. exists v1. split; [now right|reflexivity].
Qed.

Lemma by_sig_append_keys sig d m k :
  In k (map fst (by_sig_append sig d m)) -> k = sig \/ In k (map fst m).
Proof.
  induction m as [|[k0 v0] m IH]; cbn [by_sig_append map fst].
  - intros [H|[]]. now left.
  - destruct (String.eqb k0 sig); cbn [map fst]; intros [H|H]; auto.
    + right. now left.
    + right. now right.
    + right. now left.
    + destruct (IH H); auto. right. now right.
Qed.

Lemma by_sig_append_NoDup sig d m :
  NoDup (map fst m) -> NoDup (map fst (by_sig_append sig d m)).
Proof.
  induction m as [|[k0 v0] m IH]; cbn [by_sig_append map fst]; intros H.
  - repeat constructor. intros [].
  - inversion H as [|? ? Hn Hd]; subst.
    destruct (String.eqb k0 sig) eqn:E; cbn [map fst]; [assumption|].
    constructor; [|now apply IH].
    intros Hin. apply by_sig_append_keys in Hin. destruct Hin as [->|Hin].
    + now rewrite String.eqb_refl in E.
    + contradiction.
Qed.

Lemma by_sig_append_perm sig d m :
  Permutation (List.concat (map snd (by_sig_append sig d m)))
    (List.concat (map snd m) ++ [d]).
Proof.
  induction m as [|[k0 v0] m IH]; cbn [by_sig_append map snd List.concat].
  - reflexivity.
  - destruct (String.eqb k0 sig); cbn [map snd List.concat].
    + rewrite <- !app_assoc. apply Permutation_app_head.
      apply Permutation_app_comm.
    + rewrite IH. now rewrite app_assoc.
Qed.

Lemma week_fold_invariant l :
  forall m sb ds,
    map fst sb = map fst m ->
    NoDup (map fst m) ->
    Permutation (List.concat (map snd m)) ds ->
    (forall k v, In (k, v) m -> v <> [] /\ forall d, In d v -> day_sig (w d) = k) ->
    let st := fold_left
                (fun st d =>
                   let sig := day_sig (w d) in
                   (by_sig_append sig d (fst st), sig_blocks_set sig (w d) (snd st)))
                l (m, sb) in
    map fst (snd st) = map fst (fst st) /\
    NoDup (map fst (fst st)) /\
    Permutation (List.concat (map snd (fst st))) (ds ++ l) /\
    (forall k v, In (k, v) (fst st) ->
                 v <> [] /\ forall d, In d v -> day_sig (w d) = k).
Proof.
  induction l as [|d l IH]; intros m sb ds Hk Hn Hp Hs; cbn [fold_left].
  - rewrite app_nil_r. auto.
  - cbn [fst snd].
    replace (ds ++ d :: l) with ((ds ++ [d]) ++ l) by now rewrite <- app_assoc.
    apply IH.
    + now apply sig_keys_agree.
    + now apply by_sig_append_NoDup.
    + rewrite by_sig_append_perm. now apply Permutation_app_tail.
    + intros k v Hin. apply by_sig_append_In in Hin.
      destruct Hin as [Hin|(-> & [->|(v0 & Hin & ->)])].
      * now apply Hs.
      * split; [discriminate|]. intros d0 [<-|[]]. reflexivity.
      * split; [destruct v0; discriminate|].
        intros d0 Hd0. apply in_app_or in Hd0. destruct Hd0 as [Hd0|[<-|[]]].
        -- now apply (Hs _ _ Hin).
        -- reflexivity.
Qed.

Lemma assoc_of_key {V : Type} k (m : list (string * V)) :
  In k (map fst m) -> exists v, assoc k m = Some v.
Proof.
  induction m as [|[k0 v0] m IH]; cbn [map fst assoc]; [intros []|].
  destruct (String.eqb k k0) eqn:E; [eauto|].
  intros [->|H]; [now rewrite String.eqb_refl in E | now apply IH].
Qed.

Lemma week_groups_invariant :
  map fst (snd (week_groups w)) = map fst (fst (week_groups w)) /\
  NoDup (map fst (fst (week_groups w))) /\
  Permutation (List.concat (map snd (fst (week_groups w)))) DAY_ORDER /\
  (forall k v, In (k, v) (fst (week_groups w)) ->
               v <> [] /\ forall d, In d v -> day_sig (w d) = k).
Proof.
  exact (week_fold_invariant DAY_ORDER [] [] [] eq_refl (NoDup_nil _)
           (perm_nil _) (fun k v (H : In (k, v) []) => match H with end)).
Qed.

End WeekGroups.

(** X18.  The line of the week puts every weekday into exactly one group:
    the groups have different signatures, their day lists together are the
    seven days, no group is empty, every day of a group has the signature of
    the group, and looking up the blocks of a group never fails. *)
Theorem week_groups_partition_the_week w :
  exists txt,
    week_compact_pretty w = Some txt /\
    NoDup (map fst (fst (week_groups w))) /\
    Permutation (List.concat (map snd (fst (week_groups w)))) DAY_ORDER /\
    forall sig days,
      In (sig, days) (fst (week_groups w)) ->
      days <> [] /\ forall d, In d days -> day_sig (w d) = sig.
Proof.
  destruct (week_groups_invariant w) as (Hk & Hn & Hp & Hs).
  assert (Ht : exists txt, week_compact_pretty w = Some txt).
  { unfold week_compact_pretty. destruct (week_groups w) as [m sb].
    cbn [fst snd] in *.
    destruct (map_opt_total (week_piece sb) (fun _ => True) m) as (ps & -> & _);
      [|cbv beta iota delta [bind]; eauto].
    intros [sig days] Hin. unfold week_piece.
    destruct (assoc_of_key sig sb) as [v ->].
    { rewrite Hk. apply in_map_iff. now exists (sig, days). }
    cbv beta iota delta [bind]. destruct (String.eqb sig "closed"); eauto. }
  destruct Ht as [txt Ht]. exists txt. auto.
Qed.

(** X17.  When all seven days have the same signature the line of the week
    is one clause: "Mon–Sun closed" for closed or empty days, else "Mon–Sun"
    followed by the labels of the blocks. *)
Theorem uniform_week_is_one_clause w :
  (forall d, day_sig (w d) = day_sig (w mon)) ->
  week_compact_pretty w =
  Some (if String.eqb (day_sig (w mon)) "closed" then "Mon–Sun closed"
        else ("Mon–Sun " ++
              join " · " (map _range_label_for_display (own_blocks (w sun))))%string).
Proof.
  intros H. unfold week_compact_pretty, week_groups, DAY_ORDER.
  cbn [fold_left fst snd].
  rewrite (H tue), (H wed), (H thu), (H fri), (H sat), (H sun).
  set (s := day_sig (w mon)).
  do 8 (cbn [by_sig_append sig_blocks_set app map_opt week_piece assoc bind];
        rewrite ?String.eqb_refl).
  change (group_days [mon; tue; wed; thu; fri; sat; sun]) with "Mon–Sun".
  destruct (String.eqb s "closed"); reflexivity.
Qed.

Lemma uniform_week_is_one_clause_witness :
  week_compact_pretty (fun _ => Blocks [plain_block "11:00" "22:00" false]) =
  Some "Mon–Sun 11:00–22:00".
Proof.
  apply (uniform_week_is_one_clause
           (fun _ => Blocks [plain_block "11:00" "22:00" false])).
  reflexivity.
Defined.

(** ** Prices *)

Section Prices.

Local Open Scope Z_scope.




Lemma price_bucket_of_value lo hi :
  price_bucket lo hi =
  let v := price_value lo hi in
  if v =? 0 then 0 else if v <=? 999 then 1 else if v <=? 1999 then 2
  else if v <=? 2999 then 3 else if v <=? 4999 then 4 else 5.
Proof. reflexivity. Qed.

End Prices.



(** X21.  [price_bucket] always answers one of 0..5, it answers 0 exactly
    when the value it sorts is 0, and for bounds that are not negative it
    never goes down when the bounds go up. *)
Theorem price_bucket_is_monotone lo hi lo' hi' :
  (0 <= lo <= lo')%Z -> (0 <= hi <= hi')%Z ->
  (price_bucket (Some lo) (Some hi) <= price_bucket (Some lo') (Some hi'))%Z /\
  (forall a b, (0 <= price_bucket a b <= 5)%Z /\
               (price_bucket a b = 0%Z <-> price_value a b = 0%Z)).
Proof.
  intros Hlo Hhi. split.
  - assert (Hv : (0 <= price_value (Some lo) (Some hi)
                  <= price_value (Some lo') (Some hi'))%Z).
    { unfold price_value. split.
      - apply Z.div_pos; lia.
      - apply Z.div_le_mono; lia. }
    rewrite !price_bucket_of_value. cbv zeta.
    repeat match goal with
           | |- context [(?a =? ?b)%Z] => destruct (Z.eqb_spec a b)
           | |- context [(?a <=? ?b)%Z] => destruct (Z.leb_spec a b)
           end; lia.
  - intros a b. rewrite price_bucket_of_value. cbv zeta.
    repeat match goal with
           | |- context [(?a =? ?b)%Z] => destruct (Z.eqb_spec a b)
           | |- context [(?a <=? ?b)%Z] => destruct (Z.leb_spec a b)
           end; lia.
Qed.

Lemma price_bucket_is_monotone_witness :
  (price_bucket (Some 1000%Z) (Some 1999%Z)
   <= price_bucket (Some 3000%Z) (Some 3999%Z))%Z /\
  (forall a b, (0 <= price_bucket a b <= 5)%Z /\
               (price_bucket a b = 0%Z <-> price_value a b = 0%Z)).
Proof.
  apply (price_bucket_is_monotone 1000 1999 3000 3999); lia.
Defined.

(** ** The closed_on note *)

(** X22.  The [closed_on] note needs an entry: with no entries the builder
    returns the initial schedule and no policy whatever the notes hold, and
    with at least one entry a non-empty [closed_on] is the last policy. *)
Theorem closed_on_needs_an_entry :
  (forall n, build_schedule_fixed [] n = Some (weekly_init, exceptions_init)) /\
  (forall e es closed_on,
      PyStr.truthy closed_on = true ->
      exists w ex,
        build_schedule_fixed (e :: es) (Some (Some closed_on)) = Some (w, ex) /\
        last_opt (policies ex) = Some closed_on).
Proof.
  split; [reflexivity|].
  intros e es co Hco.
  destruct (fold_opt_total entry_step (e :: es) entry_step_total
              (weekly_init, exceptions_init)) as [[w ex0] H].
  eexists w, _. split.
  - apply build_schedule_fixed_fold; [discriminate | exact H].
  - unfold closed_on_policy. rewrite Hco. unfold add_policies, last_opt.
    cbn [policies]. now rewrite rev_app_distr.
Qed.

(** ** A plainly written range *)

Section PlainRange.

Local Open Scope string_scope.

Lemma plain_char_cases c :
  plain_char c = true ->
  In c ["0"; "1"; "2"; "3"; "4"; "5"; "6"; "7"; "8"; "9"; ":"; "-"]%char.
Proof.
  destruct c as [[] [] [] [] [] [] [] []]; vm_compute; intros H;
    try discriminate H; tauto.
Qed.

(** What separates a plain character from the patterns of [_norm]. *)
Lemma plain_char_facts c :
  plain_char c = true ->
  PyStr.is_space c = false /\
  Ascii.eqb (PyStr.lower_char c) (PyStr.lower_char "L") = false /\
  Ascii.eqb "t" c = false /\
  (forall x, In x ["〜"; "–"; "—"; "～"] ->
             match x with
             | String o _ => Ascii.eqb o c = false
             | EmptyString => True
             end).
Proof.
  intros H. apply plain_char_cases in H. simpl in H.
  repeat destruct H as [<-|H]; try contradiction;
    (repeat split; try reflexivity;
     intros x Hx; simpl in Hx;
     repeat destruct Hx as [<-|Hx]; try contradiction; reflexivity).
Qed.

Lemma replace_absent o old new (s : string) :
  all_in (fun x => negb (Ascii.eqb o x)) s = true ->
  PyStr.replace (String o old) new s = s.
Proof.
  intros H. unfold PyStr.replace.
  induction s as [|c s IH]; [reflexivity|].
  cbn [all_in] in H. apply andb_prop in H. destruct H as [Hc Hs].
  cbn [PyStr.replace_from PyStr.startswith].
  apply negb_true_iff in Hc. rewrite Hc. cbn [andb]. now rewrite IH.
Qed.

Lemma all_in_impl (p q : ascii -> bool) (s : string) :
  (forall c, p c = true -> q c = true) -> all_in p s = true -> all_in q s = true.
Proof.
  intros Hpq. induction s as [|c s IH]; [reflexivity|]. cbn [all_in].
  intros H. apply andb_prop in H. destruct H as [Hc Hs].
  now rewrite (Hpq c Hc), IH.
Qed.

Lemma rstrip_plain (s : string) :
  all_in (fun c => negb (PyStr.is_space c)) s = true -> PyStr.rstrip s = s.
Proof.
  induction s as [|c s IH]; [reflexivity|]. cbn [all_in PyStr.rstrip].
  intros H. apply andb_prop in H. destruct H as [Hc Hs].
  rewrite (IH Hs). apply negb_true_iff in Hc. rewrite Hc. now destruct s.
Qed.

Lemma strip_plain (s : string) :
  all_in (fun c => negb (PyStr.is_space c)) s = true -> PyStr.strip s = s.
Proof.
  intros H. unfold PyStr.strip.
  assert (Hl : PyStr.lstrip s = s).
  { destruct s as [|c s]; [reflexivity|]. cbn [all_in] in H.
    apply andb_prop in H. destruct H as [Hc _]. apply negb_true_iff in Hc.
    cbn [PyStr.lstrip]. now rewrite Hc. }
  rewrite Hl. now apply rstrip_plain.
Qed.

Lemma sub_no_match r repl (p : ascii -> bool) (s : string) :
  (forall c t, p c = true -> Re.match_at r (String c t) 0 = None) ->
  Re.match_at r "" 0 = None ->
  all_in p s = true ->
  Re.sub r repl s = s.
Proof.
  intros Hc He. unfold Re.sub.
  induction s as [|c s IH]; cbn [Re.sub_from all_in]; intros H.
  - now rewrite He.
  - apply andb_prop in H. destruct H as [Hp Hs].
    rewrite (Hc c s Hp). now rewrite (IH Hs).
Qed.

Lemma finditer_no_match r (p : ascii -> bool) (s : string) :
  (forall c t pos, p c = true -> Re.match_at r (String c t) pos = None) ->
  (forall pos, Re.match_at r "" pos = None) ->
  all_in p s = true ->
  forall pos, Re.finditer_from r s pos 0 = [].
Proof.
  intros Hc He.
  induction s as [|c s IH]; cbn [Re.finditer_from all_in]; intros H pos.
  - now rewrite He.
  - apply andb_prop in H. destruct H as [Hp Hs].
    rewrite (Hc c s pos Hp). now apply IH.
Qed.

Lemma norm_plain (s : string) : all_in plain_char s = true -> _norm s = s.
Proof.
  intros H. unfold _norm.
  assert (Hfact : forall x, In x ["〜"; "–"; "—"; "～"; "to"] ->
            match x with
            | String o old => PyStr.replace (String o old) "-" s = s
            | EmptyString => True
            end).
  { intros x Hx. destruct x as [|o old]; [exact I|].
    apply replace_absent. revert H. apply all_in_impl.
    intros c Hc. destruct (plain_char_facts c Hc) as (_ & _ & Ht & Hu).
    simpl in Hx.
    repeat destruct Hx as [Hx|Hx]; try contradiction;
      injection Hx as <- _; apply negb_true_iff;
      first [ exact Ht
            | apply (Hu "〜"); simpl; tauto
            | apply (Hu "–"); simpl; tauto
            | apply (Hu "—"); simpl; tauto
            | apply (Hu "～"); simpl; tauto ]. }
  rewrite (Hfact "〜") by (simpl; tauto).
  rewrite (Hfact "–") by (simpl; tauto).
  rewrite (Hfact "—") by (simpl; tauto).
  rewrite (Hfact "～") by (simpl; tauto).
  rewrite (Hfact "to") by (simpl; tauto).
  rewrite strip_plain.
  2:{ revert H. apply all_in_impl. intros c Hc.
      destruct (plain_char_facts c Hc) as (Hs & _). now rewrite Hs. }
  rewrite (sub_no_match WS_RE " " plain_char); try assumption; try reflexivity.
  2:{ intros c t Hc. destruct (plain_char_facts c Hc) as (Hs & _).
      unfold Re.match_at, WS_RE. cbn [Re.run Re.rep]. now rewrite Hs. }
  apply (sub_no_match LO_NORM_RE "LO" plain_char); try assumption; try reflexivity.
  intros c t Hc. destruct (plain_char_facts c Hc) as (_ & Hl & _).
  unfold Re.match_at, LO_NORM_RE, Re.seq, Re.chr_i. cbn [Re.run]. now rewrite Hl.
Qed.

Lemma find_los_plain (s : string) : all_in plain_char s = true -> find_los s = Some [].
Proof.
  intros H. unfold find_los, Re.finditer.
  rewrite (finditer_no_match LO_RE plain_char); try assumption; try reflexivity.
  intros c t pos Hc. destruct (plain_char_facts c Hc) as (_ & Hl & _).
  unfold Re.match_at, LO_RE, Re.seq, Re.chr_i. cbn [Re.run]. now rewrite Hl.
Qed.

End PlainRange.

Section PlainRangeMatch.

Local Open Scope string_scope.

Lemma digit_is_plain c : PyStr.is_digit c = true -> plain_char c = true.
Proof. intros H. unfold plain_char. now rewrite H. Qed.

Lemma digit_not_space c : PyStr.is_digit c = true -> PyStr.is_space c = false.
Proof.
  intros H. apply digit_is_plain in H. now destruct (plain_char_facts c H).
Qed.

Lemma colon_not_digit c : PyStr.is_digit c = true -> Ascii.eqb ":" c = false.
Proof. intros H. rewrite Ascii.eqb_sym. now apply digit_not_colon. Qed.

Lemma hour_form_cases h :
  hour_form h ->
  (exists a, h = String a "" /\ PyStr.is_digit a = true) \/
  (exists a b, h = String a (String b "") /\
               PyStr.is_digit a = true /\ PyStr.is_digit b = true).
Proof.
  intros [Hd [Hl|Hl]].
  - destruct h as [|a [|b h]]; try discriminate. left. exists a.
    cbn [all_in] in Hd. apply andb_prop in Hd. tauto.
  - destruct h as [|a [|b [|c h]]]; try discriminate. right. exists a, b.
    cbn [all_in] in Hd. apply andb_prop in Hd. destruct Hd as [Ha Hd].
    apply andb_prop in Hd. tauto.
Qed.

Lemma minute_form_cases m :
  minute_form m ->
  exists a b, m = String a (String b "") /\
              PyStr.is_digit a = true /\ PyStr.is_digit b = true.
Proof.
  intros [Hd Hl].
  destruct m as [|a [|b [|c m]]]; try discriminate. exists a, b.
  cbn [all_in] in Hd. apply andb_prop in Hd. destruct Hd as [Ha Hd].
  apply andb_prop in Hd. tauto.
Qed.

Lemma rep_done {A : Type} cls (s : string) pos caps (k : Re.cont A) :
  Re.rep cls 0 (Some 0) s pos caps k = k s pos caps.
Proof. destruct s; cbn [Re.rep]; [reflexivity|]. now rewrite andb_false_r. Qed.

(** A time at the head of the text is matched in one way only. *)
Lemma time_run {A : Type} h m rest pos caps (k : Re.cont A) :
  hour_form h -> minute_form m ->
  Re.run TIME_RE ((h ++ String ":" m) ++ rest) pos caps k =
  k rest (String.length (h ++ String ":" m) + pos)%nat caps.
Proof.
  intros Hh Hm.
  destruct (minute_form_cases _ Hm) as (c & d & -> & Hc & Hd).
  destruct (hour_form_cases _ Hh) as [(a & -> & Ha)|(a & b & -> & Ha & Hb)];
    unfold TIME_RE, Re.seq, Re.digits, Re.chr;
    cbn -[PyStr.is_digit Ascii.eqb];
    rewrite ?Ha, ?Hb, ?Hc, ?Hd, ?(colon_not_digit _ Hb); cbn -[PyStr.is_digit Ascii.eqb];
    rewrite ?rep_done; cbn -[PyStr.is_digit Ascii.eqb];
    rewrite ?Ha, ?Hb, ?Hc, ?Hd; cbn -[PyStr.is_digit Ascii.eqb];
    rewrite ?rep_done; cbn -[PyStr.is_digit Ascii.eqb];
    rewrite ?Ha, ?Hb, ?Hc, ?Hd; cbn -[PyStr.is_digit Ascii.eqb];
    rewrite ?rep_done;
    destruct (k rest _ caps); reflexivity.
Qed.

Lemma spaces_skip {A : Type} h t pos caps (k : Re.cont A) :
  hour_form h ->
  Re.run Re.spaces (h ++ t) pos caps k = k (h ++ t) pos caps.
Proof.
  intros Hh.
  destruct (hour_form_cases _ Hh) as [(a & -> & Ha)|(a & b & -> & Ha & _)];
    unfold Re.spaces; cbn -[PyStr.is_space];
    now rewrite (digit_not_space _ Ha).
Qed.

Lemma substring_head (w rest : string) n :
  substring 0 (String.length w + n - n) (w ++ rest) = w.
Proof. rewrite Nat.add_sub. apply substring_prefix. Qed.

Lemma spaces_dash {A : Type} t pos caps (k : Re.cont A) :
  Re.run Re.spaces (String "-" t) pos caps k = k (String "-" t) pos caps.
Proof. reflexivity. Qed.

Lemma dash_run {A : Type} t pos caps (k : Re.cont A) :
  Re.run DASH_RE (String "-" t) pos caps k = k t (S pos) caps.
Proof.
  unfold DASH_RE, Re.chr. cbn. destruct (k t (S pos) caps); reflexivity.
Qed.

Lemma range_match_at h1 m1 h2 m2 rest pos :
  hour_form h1 -> minute_form m1 -> hour_form h2 -> minute_form m2 ->
  let s := h1 ++ String ":" m1 in
  let e := h2 ++ String ":" m2 in
  Re.match_at RANGE_RE (s ++ String "-" (e ++ rest)) pos =
  Some (Re.mkMatch pos (String.length e + S (String.length s + pos))
          [("e", e); ("s", s)]).
Proof.
  intros H1 M1 H2 M2 s e.
  unfold Re.match_at, RANGE_RE, Re.seq. cbn [Re.run].
  subst s. rewrite time_run by assumption. cbv beta.
  rewrite spaces_dash. rewrite dash_run. subst e.
  rewrite (append_assoc h2).
  rewrite spaces_skip by assumption. rewrite <- (append_assoc h2).
  cbn [Re.run]. rewrite time_run by assumption.
  rewrite !substring_head. reflexivity.
Qed.

Lemma finditer_skip_all r (s : string) :
  (forall pos, Re.match_at r "" pos = None) ->
  forall pos, Re.finditer_from r s pos (String.length s) = [].
Proof.
  intros He. induction s as [|c s IH]; intros pos; cbn [String.length Re.finditer_from].
  - now rewrite He.
  - apply IH.
Qed.

Lemma finditer_single r (s : string) m :
  Re.match_at r s 0 = Some m ->
  Re.m_end m = String.length s ->
  s <> "" ->
  (forall pos, Re.match_at r "" pos = None) ->
  Re.finditer r s = [m].
Proof.
  intros Hm Hend Hne He. unfold Re.finditer.
  destruct s as [|c s]; [congruence|].
  cbn [Re.finditer_from]. rewrite Hm. f_equal.
  rewrite Hend. cbn [String.length].
  replace (S (String.length s) - 0 - 1)%nat with (String.length s) by lia.
  now apply finditer_skip_all.
Qed.

Lemma hour_form_time h m : hour_form h -> minute_form m -> time_form (h ++ String ":" m).
Proof.
  intros [Hh Hl] [Hm Hlm]. exists h, m. repeat split; auto.
  - destruct h; [simpl in Hl; lia | discriminate].
  - destruct m; [discriminate | discriminate].
Qed.

Lemma time_plain h m :
  hour_form h -> minute_form m -> all_in plain_char (h ++ String ":" m) = true.
Proof.
  intros [Hh _] [Hm _]. rewrite all_in_append. cbn [all_in].
  rewrite (all_in_impl _ _ h digit_is_plain Hh).
  now rewrite (all_in_impl _ _ m digit_is_plain Hm).
Qed.

Lemma find_ranges_plain h1 m1 h2 m2 :
  hour_form h1 -> minute_form m1 -> hour_form h2 -> minute_form m2 ->
  let s := h1 ++ String ":" m1 in
  let e := h2 ++ String ":" m2 in
  find_ranges (s ++ String "-" e) =
  Some [(0, String.length (s ++ String "-" e), s, e)]%nat.
Proof.
  intros H1 M1 H2 M2 s e.
  pose proof (range_match_at h1 m1 h2 m2 "" 0 H1 M1 H2 M2) as Hm.
  cbv zeta in Hm. rewrite append_nil_r in Hm. fold s e in Hm.
  unfold find_ranges.
  rewrite (finditer_single RANGE_RE _ _ Hm).
  - cbn [map_opt range_of_match Re.group Re.m_groups Re.lookup Re.m_start Re.m_end].
    cbn. rewrite length_append. cbn [String.length].
    replace (String.length e + S (String.length s + 0))%nat
      with (String.length s + S (String.length e))%nat by lia.
    reflexivity.
  - cbn [Re.m_end]. rewrite length_append. cbn [String.length]. lia.
  - subst s. destruct H1 as [_ Hl]. destruct h1; [simpl in Hl; lia | discriminate].
  - reflexivity.
Qed.

End PlainRangeMatch.

(** X23.  A range written plainly, as one or two digits, a colon, two
    digits, a hyphen and a second such time, parses to exactly one block: its
    open and close are the two times as written, its flag is the comparison
    close <= open of their minutes, it has no last order and no carried
    mark. *)
Theorem plain_range_parses_to_one_block h1 m1 h2 m2 :
  hour_form h1 -> minute_form m1 -> hour_form h2 -> minute_form m2 ->
  let s := (h1 ++ String ":" m1)%string in
  let e := (h2 ++ String ":" m2)%string in
  exists c,
    _crosses_midnight s e = Some c /\
    parse_time_ranges (s ++ String "-" e)%string =
    Some [mkBlock s e c None false].
Proof.
  intros H1 M1 H2 M2 s e.
  destruct (crosses_midnight_total s e) as [c Hc];
    [now apply hour_form_time | now apply hour_form_time |].
  exists c. split; [assumption|].
  assert (Hp : all_in plain_char (s ++ String "-" e)%string = true).
  { rewrite all_in_append. cbn [all_in]. subst s e.
    rewrite !time_plain by assumption. reflexivity. }
  unfold parse_time_ranges. rewrite (norm_plain _ Hp).
  subst s e. rewrite find_ranges_plain by assumption.
  rewrite (find_los_plain _ Hp). cbv beta iota delta [bind].
  cbn [build_blocks]. rewrite Hc. reflexivity.
Qed.

Lemma plain_range_parses_to_one_block_witness :
  exists c,
    _crosses_midnight "9:30" "14:00" = Some c /\
    parse_time_ranges "9:30-14:00" = Some [mkBlock "9:30" "14:00" c None false].
Proof.
  apply (plain_range_parses_to_one_block "9" "30" "14" "00").
  - split; [reflexivity | left; reflexivity].
  - split; reflexivity.
  - split; [reflexivity | right; reflexivity].
  - split; reflexivity.
Defined.
